(** * Rule evaluation and recommendation engine of DBX Rule Studio

    A shallow embedding of [src/lib/evaluator.ts] (with the types of
    [src/lib/types.ts]) and the properties of its path resolver, condition
    evaluator, effect applicator, rule engine and recommendation engine,
    followed by its narrative and preview generators, the validation of a
    draft in the rule editor ([src/pages/RuleEditor.tsx]) and the tables of
    fields and operators that the editor offers.

    Modelling conventions.
    - A JSON value is a [value]; [undefined] is the [None] of [option value].
    - A JavaScript number is an exact rational ([Q]): the finite numbers JSON
      carries, without the rounding of binary floating point.  A coercion that
      yields [NaN] is [None].
    - An object is the list of its own entries in the order [Object.entries]
      enumerates them; a lookup returns the first entry of that name, and an
      assignment to a new name adds the entry last (names that are array
      indices, which JavaScript enumerates first, are not told apart).
      Inherited (prototype) properties are outside the model.
    - [JSON.parse(JSON.stringify(x))] is the identity on these values, so the
      deep copies of the source do not appear.
    - The conversions the host language owns (number to text, text to number,
      lower-casing) are the operations of the class [Host].
    - [new Date().toISOString()] is read from an explicit argument. *)

From Stdlib Require Import List String Ascii Bool Arith ZArith NArith QArith Qround.
From Stdlib Require Import Lia Lqa Permutation Sorted DecimalString.
Import ListNotations.
Local Open Scope string_scope.

(** ** JSON values *)

Set Warnings "-register-all".

Inductive value : Type :=
| VNull
| VBool (b : bool)
| VNum (n : Q)
| VStr (s : string)
| VArr (items : list value)
| VObj (fields : list (string * value)).

(** [Record<string, V>] *)
Definition record (V : Type) : Type := list (string * V).

Definition jsobject : Type := record value.

Fixpoint obj_get {V : Type} (o : record V) (k : string) : option V :=
  match o with
  | [] => None
  | (k', v) :: rest => if String.eqb k' k then Some v else obj_get rest k
  end.

(** [o[k] = v]: an existing entry keeps its place, a new one goes last. *)
Fixpoint obj_set {V : Type} (o : record V) (k : string) (v : V) : record V :=
  match o with
  | [] => [(k, v)]
  | (k', v') :: rest =>
      if String.eqb k' k then (k', v) :: rest else (k', v') :: obj_set rest k v
  end.

(** The operations of the host language that the engine calls on text and
    numbers. *)
Class Host : Type := {
  num_to_string : Q -> string;          (* Number::toString *)
  string_to_num : string -> option Q;   (* StringToNumber, None for NaN *)
  toLowerCase : string -> string
}.

(** [l.push(x)] *)
Definition push {T : Type} (l : list T) (x : T) : list T := (l ++ [x])%list.

(** The double quote character, for the texts that contain one. *)
Definition dquote : string := String (ascii_of_nat 34) EmptyString.

(** ** Path resolver *)

(** [path.split('.')] *)
Fixpoint split_dot (s : string) : list string :=
  match s with
  | EmptyString => [EmptyString]
  | String c rest =>
      if Ascii.eqb c "."%char then EmptyString :: split_dot rest
      else match split_dot rest with
           | [] => [String c EmptyString]
           | p :: ps => String c p :: ps
           end
  end.

(** [typeof v]; [typeof null] is "object", and so is [typeof] of an array. *)
Definition typeof (v : value) : string :=
  match v with
  | VNull => "object"
  | VBool _ => "boolean"
  | VNum _ => "number"
  | VStr _ => "string"
  | VArr _ => "object"
  | VObj _ => "object"
  end.

Definition is_digit (c : ascii) : bool :=
  (48 <=? nat_of_ascii c)%nat && (nat_of_ascii c <=? 57)%nat.

Fixpoint digits_to_N (s : string) (acc : N) : option N :=
  match s with
  | EmptyString => Some acc
  | String c rest =>
      if is_digit c
      then digits_to_N rest (acc * 10 + N.of_nat (nat_of_ascii c - 48))%N
      else None
  end.

(** A property name is an array index when it is the canonical decimal text
    of a natural number: digits only, no leading zero. *)
Definition array_index (s : string) : option N :=
  match s with
  | EmptyString => None
  | String c rest =>
      if Ascii.eqb c "0"%char
      then match rest with EmptyString => Some 0%N | _ => None end
      else digits_to_N s 0
  end.

(** Own properties of an array: its elements and its length. *)
Definition array_get (items : list value) (part : string) : option value :=
  if String.eqb part "length" then Some (VNum (inject_Z (Z.of_nat (List.length items))))
  else match array_index part with
       | Some i => nth_error items (N.to_nat i)
       | None => None
       end.

(** [current[part]] for a current value that passed the two guards. *)
Definition get_prop (current : value) (part : string) : option value :=
  match current with
  | VObj fields => obj_get fields part
  | VArr items => array_get items part
  | _ => None
  end.

(** The loop of [getByPath] over the remaining parts. *)
Fixpoint getByPath_loop (parts : list string) (current : option value) : option value :=
  match parts with
  | [] => current
  | part :: rest =>
      match current with
      | None => None
      | Some VNull => None
      | Some v =>
          if negb (String.eqb (typeof v) "object") then None
          else getByPath_loop rest (get_prop v part)
      end
  end.

Definition getByPath (obj : jsobject) (path : string) : option value :=
  getByPath_loop (split_dot path) (Some (VObj obj)).

(** ** Condition evaluator *)

Section WithHost.
Context {host : Host}.

(** [String(v)] *)
Fixpoint ToString (v : value) : string :=
  match v with
  | VNull => "null"
  | VBool true => "true"
  | VBool false => "false"
  | VNum n => num_to_string n
  | VStr s => s
  | VArr items =>
      String.concat ","
        (map (fun x => match x with VNull => EmptyString | _ => ToString x end) items)
  | VObj _ => "[object Object]"
  end.

Definition String_ (v : option value) : string :=
  match v with
  | None => "undefined"
  | Some x => ToString x
  end.

(** [Number(v)]; [None] is [NaN]. *)
Definition Number_ (v : option value) : option Q :=
  match v with
  | None => None
  | Some VNull => Some 0
  | Some (VBool true) => Some 1
  | Some (VBool false) => Some 0
  | Some (VNum n) => Some n
  | Some (VStr s) => string_to_num s
  | Some (VArr items) => string_to_num (ToString (VArr items))
  | Some (VObj fields) => string_to_num (ToString (VObj fields))
  end.

Definition Qlt_bool (a b : Q) : bool := negb (Qle_bool b a).

(** A comparison with [NaN] on either side is false. *)
Definition num_cmp (rel : Q -> Q -> bool) (a b : option Q) : bool :=
  match a, b with
  | Some x, Some y => rel x y
  | _, _ => false
  end.

(** [s.includes(sub)] *)
Fixpoint includes (s sub : string) : bool :=
  String.prefix sub s ||
  match s with
  | EmptyString => false
  | String _ rest => includes rest sub
  end.

Definition checkCondition (sourceValue : option value) (op : string)
    (targetValue : option value) : bool :=
  match sourceValue with
  | None => false
  | Some VNull => false
  | Some _ =>
      if String.eqb op ">" then
        num_cmp (fun x y => Qlt_bool y x) (Number_ sourceValue) (Number_ targetValue)
      else if String.eqb op "<" then
        num_cmp Qlt_bool (Number_ sourceValue) (Number_ targetValue)
      else if String.eqb op ">=" then
        num_cmp (fun x y => Qle_bool y x) (Number_ sourceValue) (Number_ targetValue)
      else if String.eqb op "<=" then
        num_cmp Qle_bool (Number_ sourceValue) (Number_ targetValue)
      else if String.eqb op "=" then
        String.eqb (toLowerCase (String_ sourceValue)) (toLowerCase (String_ targetValue))
      else if String.eqb op "contains" then
        includes (toLowerCase (String_ sourceValue)) (toLowerCase (String_ targetValue))
      else if String.eqb op "in" then
        match targetValue with
        | Some (VArr vs) =>
            existsb (fun v => String.eqb (toLowerCase (ToString v))
                                         (toLowerCase (String_ sourceValue))) vs
        | _ => false
        end
      else false
  end.

(** ** Data model ([types.ts]) *)

Inductive RuleStatus : Type := DRAFT | ACTIVE | INACTIVE.

Inductive RuleEvent : Type := LOGIN | SALARY_CREDIT | TRANSFER_POSTED | MARKETPLACE_VIEW.

Definition RuleStatus_eqb (a b : RuleStatus) : bool :=
  match a, b with
  | DRAFT, DRAFT | ACTIVE, ACTIVE | INACTIVE, INACTIVE => true
  | _, _ => false
  end.

Definition RuleEvent_eqb (a b : RuleEvent) : bool :=
  match a, b with
  | LOGIN, LOGIN | SALARY_CREDIT, SALARY_CREDIT
  | TRANSFER_POSTED, TRANSFER_POSTED | MARKETPLACE_VIEW, MARKETPLACE_VIEW => true
  | _, _ => false
  end.

Record Condition : Type := {
  source : string;
  op : string;
  cond_value : value
}.

(** The argument type of [applyEffect]: a free-form [type] and three optional
    fields. *)
Record Effect : Type := {
  effect_type : string;
  score : option string;
  delta : option Q;
  tag : option string
}.

(** The fields of a rule that the engine reads. *)
Record Rule : Type := {
  rule_id : string;
  rule_name : string;
  status : RuleStatus;
  priority : Z;
  event : RuleEvent;
  conditions : list Condition;
  effects : list Effect
}.

Record Profile : Type := {
  customer_id : string;
  static_data : jsobject;
  behavioral : jsobject;
  scores : record Q;
  tags : list string;
  last_updated : string
}.

Record SimulationEvent : Type := {
  event_type : RuleEvent;
  payload : jsobject
}.

Record TraceEntry : Type := {
  ruleId : string;
  ruleName : string;
  effectDescription : string
}.

Record Product : Type := {
  product_id : string;
  product_name : string;
  required_scores : option (record Q);
  weight_by_score : option (record Q);
  exclusions : option (list string);
  active : bool
}.

Inductive Decision : Type := SHOWN | HIDDEN.

Definition Decision_eqb (a b : Decision) : bool :=
  match a, b with
  | SHOWN, SHOWN | HIDDEN, HIDDEN => true
  | _, _ => false
  end.

(** [rank] is a position in the returned list, counted from 1. *)
Record ProductRecommendation : Type := {
  product : Product;
  decision : Decision;
  rank : nat;
  rec_score : Q;
  why : list string;
  scoreBreakdown : record Q
}.

Definition set_scores (p : Profile) (s : record Q) : Profile :=
  {| customer_id := customer_id p; static_data := static_data p;
     behavioral := behavioral p; scores := s; tags := tags p;
     last_updated := last_updated p |}.

Definition set_tags (p : Profile) (t : list string) : Profile :=
  {| customer_id := customer_id p; static_data := static_data p;
     behavioral := behavioral p; scores := scores p; tags := t;
     last_updated := last_updated p |}.

Definition set_last_updated (p : Profile) (t : string) : Profile :=
  {| customer_id := customer_id p; static_data := static_data p;
     behavioral := behavioral p; scores := scores p; tags := tags p;
     last_updated := t |}.

Definition set_rank (r : ProductRecommendation) (k : nat) : ProductRecommendation :=
  {| product := product r; decision := decision r; rank := k;
     rec_score := rec_score r; why := why r; scoreBreakdown := scoreBreakdown r |}.

(** ** Context *)

Definition buildContext (profile : Profile) (event : SimulationEvent) : jsobject :=
  [ ("event", VObj (payload event));
    ("profile", VObj
       [ ("static", VObj (static_data profile));
         ("behavioral", VObj (behavioral profile));
         ("scores", VObj (map (fun kv => (fst kv, VNum (snd kv))) (scores profile)));
         ("tags", VArr (map VStr (tags profile))) ]) ].

(** ** Effect applicator *)

(** [x || 0] on a number that may be missing: zero is falsy too. *)
Definition or_zero (x : option Q) : Q :=
  match x with
  | None => 0
  | Some q => if Qeq_bool q 0 then 0 else q
  end.

(** [tags.includes(t)] *)
Definition tags_include (ts : list string) (t : string) : bool :=
  existsb (String.eqb t) ts.

(** [tags.indexOf(t)], [None] for -1. *)
Fixpoint indexOf (ts : list string) (t : string) : option nat :=
  match ts with
  | [] => None
  | x :: rest =>
      if String.eqb x t then Some O
      else match indexOf rest t with
           | Some i => Some (S i)
           | None => None
           end
  end.

(** [tags.splice(idx, 1)] *)
Fixpoint splice1 (ts : list string) (idx : nat) : list string :=
  match ts, idx with
  | [], _ => []
  | _ :: rest, O => rest
  | x :: rest, S i => x :: splice1 rest i
  end.

(** A string is truthy when it is present and not empty. *)
Definition truthy (s : option string) : option string :=
  match s with
  | Some EmptyString => None
  | other => other
  end.

Definition applyEffect (profile : Profile) (effect : Effect) : string * Profile :=
  let newProfile := profile in
  if String.eqb (effect_type effect) "scoreDelta" then
    match truthy (score effect), delta effect with
    | Some sc, Some d =>
        let currentScore := or_zero (obj_get (scores newProfile) sc) in
        let newScore := currentScore + d in
        let sign := if Qle_bool 0 d then "+" else "" in
        (sc ++ " " ++ sign ++ num_to_string d ++ " (" ++ num_to_string currentScore
            ++ " → " ++ num_to_string newScore ++ ")",
         set_scores newProfile (obj_set (scores newProfile) sc newScore))
    | _, _ => ("", newProfile)
    end
  else if String.eqb (effect_type effect) "addTag" then
    match truthy (tag effect) with
    | Some t =>
        if negb (tags_include (tags newProfile) t)
        then ("Added tag " ++ dquote ++ t ++ dquote,
              set_tags newProfile (push (tags newProfile) t))
        else ("", newProfile)
    | None => ("", newProfile)
    end
  else if String.eqb (effect_type effect) "removeTag" then
    match truthy (tag effect) with
    | Some t =>
        match indexOf (tags newProfile) t with
        | Some idx =>
            ("Removed tag " ++ dquote ++ t ++ dquote,
             set_tags newProfile (splice1 (tags newProfile) idx))
        | None => ("", newProfile)
        end
    | None => ("", newProfile)
    end
  else ("", newProfile).

(** ** Sorting

    [Array.prototype.sort] is stable, and with a consistent comparator its
    result is determined: each element goes behind the elements it was
    already behind unless the comparator orders it strictly first.  The
    reference implementation is the stable insertion sort: [x] passes [y]
    exactly when [compareFn x y > 0]. *)

Section Sort.
Context {A : Type} (compareFn : A -> A -> Q).

Fixpoint insert_sorted (x : A) (l : list A) : list A :=
  match l with
  | [] => [x]
  | y :: rest =>
      if Qlt_bool 0 (compareFn x y) then y :: insert_sorted x rest else x :: l
  end.

Definition Array_sort (l : list A) : list A := fold_right insert_sorted [] l.

(** [x] may stand before [y]: the comparator does not order [y] strictly
    first. *)
Definition before (x y : A) : bool := negb (Qlt_bool 0 (compareFn x y)).

End Sort.

(** ** Rule engine *)

(** [r.status === 'ACTIVE' && r.event === event.type] *)
Definition rule_matches (ev : SimulationEvent) (r : Rule) : bool :=
  RuleStatus_eqb (status r) ACTIVE && RuleEvent_eqb (event r) (event_type ev).

Definition matchingRules (sortedRules : list Rule) (ev : SimulationEvent) : list Rule :=
  filter (rule_matches ev) sortedRules.

Definition allConditionsMet (context : jsobject) (rule : Rule) : bool :=
  forallb
    (fun condition =>
       let sourceValue := getByPath context (source condition) in
       checkCondition sourceValue (op condition) (Some (cond_value condition)))
    (conditions rule).

Definition nonempty (s : string) : bool :=
  match s with
  | EmptyString => false
  | String _ _ => true
  end.

(** [for (const effect of rule.effects)] *)
Fixpoint effects_loop (currentProfile : Profile) (effectDescriptions : list string)
    (effs : list Effect) : Profile * list string :=
  match effs with
  | [] => (currentProfile, effectDescriptions)
  | effect :: rest =>
      let result := applyEffect currentProfile effect in
      effects_loop (snd result)
        (if nonempty (fst result) then push effectDescriptions (fst result)
         else effectDescriptions)
        rest
  end.

(** [for (const rule of matchingRules)] *)
Fixpoint rules_loop (ev : SimulationEvent) (currentProfile : Profile)
    (trace : list TraceEntry) (matching : list Rule) : Profile * list TraceEntry :=
  match matching with
  | [] => (currentProfile, trace)
  | rule :: rest =>
      let context := buildContext currentProfile ev in
      if allConditionsMet context rule then
        let applied := effects_loop currentProfile [] (effects rule) in
        rules_loop ev (fst applied)
          (push trace {| ruleId := rule_id rule;
                         ruleName := rule_name rule;
                         effectDescription := String.concat "; " (snd applied) |})
          rest
      else rules_loop ev currentProfile trace rest
  end.

(** [for (const event of events)] *)
Fixpoint events_loop (sortedRules : list Rule) (currentProfile : Profile)
    (trace : list TraceEntry) (events : list SimulationEvent)
    : Profile * list TraceEntry :=
  match events with
  | [] => (currentProfile, trace)
  | ev :: rest =>
      let st := rules_loop ev currentProfile trace (matchingRules sortedRules ev) in
      events_loop sortedRules (fst st) (snd st) rest
  end.

Definition priority_compare (a b : Rule) : Q := inject_Z (priority b - priority a).

(** [now] is what [new Date().toISOString()] returns during the call. *)
Definition evaluateRules (rules : list Rule) (initialProfile : Profile)
    (events : list SimulationEvent) (now : string) : Profile * list TraceEntry :=
  let sortedRules := Array_sort priority_compare rules in
  let st := events_loop sortedRules initialProfile [] events in
  (set_last_updated (fst st) now, snd st).

(** ** Recommendation engine *)

(** [Math.round]: to the nearest integer, halves upwards. *)
Definition Math_round (q : Q) : Q := inject_Z (Qfloor (q + (1 # 2))).

Definition or_empty {T : Type} (o : option (list T)) : list T :=
  match o with
  | Some l => l
  | None => []
  end.

(** The loop over [Object.entries(requiredScores)], on the state
    [(why, scoreBreakdown, allScoresMet)]. *)
Fixpoint requiredScores_loop (profile : Profile) (entries : record Q)
    (st : list string * record Q * bool) : list string * record Q * bool :=
  match entries with
  | [] => st
  | (scoreName, threshold) :: rest =>
      let '(why, scoreBreakdown, allScoresMet) := st in
      let profileScore := or_zero (obj_get (scores profile) scoreName) in
      let scoreBreakdown' := obj_set scoreBreakdown scoreName profileScore in
      if Qle_bool threshold profileScore then
        requiredScores_loop profile rest
          (push why ("✓ " ++ scoreName ++ ": " ++ num_to_string profileScore
                       ++ " ≥ " ++ num_to_string threshold),
           scoreBreakdown', allScoresMet)
      else
        requiredScores_loop profile rest
          (push why ("✗ " ++ scoreName ++ ": " ++ num_to_string profileScore
                       ++ " < " ++ num_to_string threshold ++ " required"),
           scoreBreakdown', false)
  end.

(** The loop over [Object.entries(weights)], on [rankScore]. *)
Fixpoint weights_loop (profile : Profile) (entries : record Q) (rankScore : Q) : Q :=
  match entries with
  | [] => rankScore
  | (scoreName, weight) :: rest =>
      let profileScore := or_zero (obj_get (scores profile) scoreName) in
      weights_loop profile rest (rankScore + profileScore * weight)
  end.

(** The body of the loop over the products, for an active product: the record
    pushed on [recommendations]. *)
Definition recommendation_of (profile : Profile) (prod : Product) : ProductRecommendation :=
  let excl := or_empty (exclusions prod) in
  let hasExclusion := existsb (fun t => tags_include (tags profile) t) excl in
  if hasExclusion then
    let matchedExclusion := find (fun t => tags_include (tags profile) t) excl in
    {| product := prod;
       decision := HIDDEN;
       rank := 0;
       rec_score := Math_round (0 * 100) / 100;
       why := [ "Excluded: customer has " ++ dquote
                  ++ match matchedExclusion with Some t => t | None => "undefined" end
                  ++ dquote ++ " tag" ];
       scoreBreakdown := [] |}
  else
    let requiredScores := or_empty (required_scores prod) in
    let '(why1, scoreBreakdown1, allScoresMet) :=
      requiredScores_loop profile requiredScores ([], [], true) in
    let weights := or_empty (weight_by_score prod) in
    let rankScore := weights_loop profile weights 0 in
    {| product := prod;
       decision := if negb allScoresMet then HIDDEN else SHOWN;
       rank := 0;
       rec_score := Math_round (rankScore * 100) / 100;
       why := why1;
       scoreBreakdown := scoreBreakdown1 |}.

(** [for (const product of products)] *)
Fixpoint products_loop (profile : Profile) (recommendations : list ProductRecommendation)
    (products : list Product) : list ProductRecommendation :=
  match products with
  | [] => recommendations
  | prod :: rest =>
      if negb (active prod) then products_loop profile recommendations rest
      else products_loop profile (push recommendations (recommendation_of profile prod)) rest
  end.

Definition recommendation_compare (a b : ProductRecommendation) : Q :=
  if negb (Decision_eqb (decision a) (decision b))
  then (if Decision_eqb (decision a) SHOWN then -1 else 1)
  else rec_score b - rec_score a.

(** [recommendations.forEach((rec, idx) => { rec.rank = idx + 1; })] *)
Fixpoint assign_ranks (idx : nat) (recs : list ProductRecommendation)
    : list ProductRecommendation :=
  match recs with
  | [] => []
  | r :: rest => set_rank r (idx + 1) :: assign_ranks (S idx) rest
  end.

Definition recommend (products : list Product) (profile : Profile)
    : list ProductRecommendation :=
  let recommendations := products_loop profile [] products in
  assign_ranks 0 (Array_sort recommendation_compare recommendations).

End WithHost.

(** ** A host for worked examples

    Numbers print as decimal integers (a proper fraction as
    numerator/denominator), text that is a decimal integer parses to it, the
    empty text to zero, and lower-casing acts on the ASCII letters. *)

Definition lower_ascii (c : ascii) : ascii :=
  let n := nat_of_ascii c in
  if (65 <=? n)%nat && (n <=? 90)%nat then ascii_of_nat (n + 32) else c.

Fixpoint lower_string (s : string) : string :=
  match s with
  | EmptyString => EmptyString
  | String c rest => String (lower_ascii c) (lower_string rest)
  end.

Definition print_Q (q : Q) : string :=
  let r := Qred q in
  let n := NilZero.string_of_int (Z.to_int (Qnum r)) in
  if Pos.eqb (Qden r) 1 then n
  else n ++ "/" ++ NilZero.string_of_uint (Pos.to_uint (Qden r)).

Definition parse_Q (s : string) : option Q :=
  match s with
  | EmptyString => Some 0
  | _ => option_map (fun i => inject_Z (Z.of_int i)) (NilZero.int_of_string s)
  end.

Definition plain_host : Host :=
  {| num_to_string := print_Q; string_to_num := parse_Q; toLowerCase := lower_string |}.

(** ** Notions used to state the properties *)


(** The order the comparator of [recommend] induces: SHOWN before HIDDEN,
    then the higher score first. *)
Definition rec_before (a b : ProductRecommendation) : Prop :=
  match decision a, decision b with
  | SHOWN, HIDDEN => True
  | HIDDEN, SHOWN => False
  | _, _ => rec_score b <= rec_score a
  end.

Definition is_shown (r : ProductRecommendation) : bool := Decision_eqb (decision r) SHOWN.

Definition is_hidden (r : ProductRecommendation) : bool := Decision_eqb (decision r) HIDDEN.

(** Same decision and (numerically) the same score. *)
Definition same_class (d : Decision) (s : Q) (r : ProductRecommendation) : bool :=
  Decision_eqb (decision r) d && Qeq_bool (rec_score r) s.

(** [profile.scores[name]], zero when the score is absent. *)
Definition score_default (profile : Profile) (name : string) : Q :=
  match obj_get (scores profile) name with
  | Some q => q
  | None => 0
  end.


(** [profileScore >= threshold] for one entry of the required scores. *)
Definition threshold_met (profile : Profile) (e : string * Q) : bool :=
  Qle_bool (snd e) (or_zero (obj_get (scores profile) (fst e))).

Section FiringOrder.
Context {host : Host}.

(** The profile after all the effects of a list, applied in list order. *)
Definition apply_all (p : Profile) (effs : list Effect) : Profile :=
  fold_left (fun q e => snd (applyEffect q e)) effs p.

(** The non-empty descriptions of the effects of a list, each effect applied
    to the profile its predecessors left. *)
Fixpoint describe_all (p : Profile) (effs : list Effect) : list string :=
  match effs with
  | [] => []
  | e :: rest =>
      ((if nonempty (fst (applyEffect p e)) then [fst (applyEffect p e)] else [])
       ++ describe_all (snd (applyEffect p e)) rest)%list
  end.

(** One step of the engine: a rule meets an event in a running state.  Its
    conditions are read in the context of the running profile. *)
Definition fire (st : Profile * list TraceEntry) (er : SimulationEvent * Rule)
    : Profile * list TraceEntry :=
  if allConditionsMet (buildContext (fst st) (fst er)) (snd er) then
    (apply_all (fst st) (effects (snd er)),
     (snd st ++
      [ {| ruleId := rule_id (snd er);
           ruleName := rule_name (snd er);
           effectDescription :=
             String.concat "; " (describe_all (fst st) (effects (snd er))) |} ])%list)
  else st.

(** The pairs of an event and a rule in the order the engine meets them:
    event after event, and for each event its matching rules in sorted
    order. *)
Definition firing_schedule (sortedRules : list Rule) (events : list SimulationEvent)
    : list (SimulationEvent * Rule) :=
  flat_map (fun ev => map (pair ev) (matchingRules sortedRules ev)) events.

End FiringOrder.

(** ** Narrative generator *)

(** The line feed, the separator of the narrative. *)
Definition newline : string := String (ascii_of_nat 10) EmptyString.

Section Narrative.
Context {host : Host}.

(** The name of the product of a recommendation, [r.product.name]. *)
Definition rec_name (r : ProductRecommendation) : string := product_name (product r).

(** The array [parts] of [generateNarrative], before it is joined. *)
Definition generateNarrative_parts (trace : list TraceEntry)
    (recommendations : list ProductRecommendation) : list string :=
  let parts0 :=
    if Nat.eqb (List.length trace) 0
    then [ "No rules were triggered by the provided events." ]
    else (num_to_string (inject_Z (Z.of_nat (List.length trace))) ++ " rule"
            ++ (if Nat.ltb 1 (List.length trace) then "s" else "") ++ " matched:")
         :: map (fun t => "• " ++ dquote ++ ruleName t ++ dquote ++ ": "
                            ++ effectDescription t) trace in
  let parts1 := push (push parts0 "") "Recommendation Summary:" in
  let shown := filter (fun r => Decision_eqb (decision r) SHOWN) recommendations in
  let hidden := filter (fun r => Decision_eqb (decision r) HIDDEN) recommendations in
  let parts2 :=
    if Nat.ltb 0 (List.length shown)
    then push parts1 ("Showing: " ++ String.concat ", " (map rec_name shown))
    else parts1 in
  if Nat.ltb 0 (List.length hidden)
  then push parts2 ("Hidden: " ++ String.concat ", " (map rec_name hidden))
  else parts2.

Definition generateNarrative (trace : list TraceEntry)
    (recommendations : list ProductRecommendation) : string :=
  String.concat newline (generateNarrative_parts trace recommendations).

End Narrative.

(** ** Rule preview and rule validation *)

(** [Partial<Rule>], the fields that the preview and the validation read. *)
Record PartialRule : Type := {
  draft_name : option string;
  draft_event : option RuleEvent;
  draft_conditions : option (list Condition);
  draft_effects : option (list Effect)
}.

(** The text of an event type. *)
Definition RuleEvent_text (e : RuleEvent) : string :=
  match e with
  | LOGIN => "LOGIN"
  | SALARY_CREDIT => "SALARY_CREDIT"
  | TRANSFER_POSTED => "TRANSFER_POSTED"
  | MARKETPLACE_VIEW => "MARKETPLACE_VIEW"
  end.

(** [s.replace('_', ' ')]: the first underscore only. *)
Fixpoint replace_underscore (s : string) : string :=
  match s with
  | EmptyString => EmptyString
  | String c rest =>
      if Ascii.eqb c "_"%char then String " "%char rest
      else String c (replace_underscore rest)
  end.

(** [c.source.split('.').pop() || c.source] *)
Definition fieldLabel (src : string) : string :=
  let popped := last (split_dot src) EmptyString in
  if nonempty popped then popped else src.

(** [!list?.length] *)
Definition no_length {T : Type} (l : option (list T)) : bool :=
  match l with
  | Some (_ :: _) => false
  | _ => true
  end.

Definition preview_placeholder : string :=
  "Complete the rule configuration to see preview...".

Section Preview.
Context {host : Host}.

(** [JSON.stringify] on a condition value, an operation of the host. *)
Variable JSON_stringify : value -> string.

(** A template literal prints a missing text as "undefined". *)
Definition text_or_undefined (s : option string) : string :=
  match s with
  | Some x => x
  | None => "undefined"
  end.

Definition number_or_undefined (d : option Q) : string :=
  match d with
  | Some x => num_to_string x
  | None => "undefined"
  end.

Definition conditionPart (c : Condition) : string :=
  fieldLabel (source c) ++ " " ++ op c ++ " " ++ JSON_stringify (cond_value c).

Definition effectPart (e : Effect) : string :=
  if String.eqb (effect_type e) "scoreDelta" then
    let sign := if Qle_bool 0 (or_zero (delta e)) then "+" else "" in
    text_or_undefined (score e) ++ " " ++ sign ++ number_or_undefined (delta e)
  else if String.eqb (effect_type e) "addTag" then
    "add tag " ++ dquote ++ text_or_undefined (tag e) ++ dquote
  else if String.eqb (effect_type e) "removeTag" then
    "remove tag " ++ dquote ++ text_or_undefined (tag e) ++ dquote
  else "".

Definition generateRulePreview (rule : PartialRule) : string :=
  match draft_event rule with
  | None => preview_placeholder
  | Some ev =>
      if no_length (draft_conditions rule) || no_length (draft_effects rule)
      then preview_placeholder
      else
        let eventLabel := toLowerCase (replace_underscore (RuleEvent_text ev)) in
        let conditionParts := map conditionPart (or_empty (draft_conditions rule)) in
        let effectParts :=
          filter nonempty (map effectPart (or_empty (draft_effects rule))) in
        "When **" ++ eventLabel ++ "** and " ++ String.concat " and " conditionParts
          ++ " → " ++ String.concat ", " effectParts
  end.

End Preview.

Section Validation.
Context {host : Host}.

(** [String.prototype.trim], an operation of the host. *)
Variable trim : string -> string.

(** The position [i + 1] as it is printed in a message. *)
Definition position_text (i : nat) : string :=
  num_to_string (inject_Z (Z.of_nat (i + 1))).

(** [c.value === '' || c.value === null]; a condition of this type always
    has some value, so the comparison with [undefined] has no case. *)
Definition value_missing (v : value) : bool :=
  match v with
  | VStr EmptyString => true
  | VNull => true
  | _ => false
  end.

Definition is_none {T : Type} (o : option T) : bool :=
  match o with
  | Some _ => false
  | None => true
  end.

(** The body of [conditions.forEach((c, i) => ...)]. *)
Definition condition_errors (i : nat) (c : Condition) : list string :=
  List.app
    (if nonempty (source c) then []
     else [ "Condition " ++ position_text i ++ ": Field is required" ])
    (if value_missing (cond_value c)
     then [ "Condition " ++ position_text i ++ ": Value is required" ]
     else []).

(** The body of [effects.forEach((e, i) => ...)]. *)
Definition effect_errors (i : nat) (e : Effect) : list string :=
  List.app
    (if String.eqb (effect_type e) "scoreDelta"
     then List.app
            (if is_none (truthy (score e))
             then [ "Effect " ++ position_text i ++ ": Score name is required" ]
             else [])
            (if is_none (delta e)
             then [ "Effect " ++ position_text i ++ ": Delta value is required" ]
             else [])
     else [])
    (if String.eqb (effect_type e) "addTag" || String.eqb (effect_type e) "removeTag"
     then (if is_none (truthy (tag e))
           then [ "Effect " ++ position_text i ++ ": Tag is required" ]
           else [])
     else []).

(** [list.forEach((x, i) => errors.push(...))] from position [i] on. *)
Fixpoint forEach_errors {T : Type} (f : nat -> T -> list string) (i : nat)
    (l : list T) : list string :=
  match l with
  | [] => []
  | x :: rest => (f i x ++ forEach_errors f (S i) rest)%list
  end.

Definition validateRule (ruleToValidate : PartialRule) : list string :=
  List.concat
    [ if is_none (truthy (option_map trim (draft_name ruleToValidate)))
      then [ "Rule name is required" ] else [];
      if is_none (draft_event ruleToValidate)
      then [ "Event type is required" ] else [];
      if no_length (draft_conditions ruleToValidate)
      then [ "At least one condition is required" ] else [];
      if no_length (draft_effects ruleToValidate)
      then [ "At least one effect is required" ] else [];
      forEach_errors condition_errors 0 (or_empty (draft_conditions ruleToValidate));
      forEach_errors effect_errors 0 (or_empty (draft_effects ruleToValidate)) ].

End Validation.

(** ** Tables of the editor ([types.ts]) *)

(** [FIELD_SUGGESTIONS]: path, label and type of the fields that the editor
    offers for a condition. *)
Definition FIELD_SUGGESTIONS : list (string * string * string) :=
  [ ("event.amount", "Event Amount", "number");
    ("event.counterpartyLabel", "Counterparty Label", "string");
    ("event.frequency", "Event Frequency", "string");
    ("event.category", "Event Category", "string");
    ("profile.static.age", "Customer Age", "number");
    ("profile.static.employment", "Employment Status", "string");
    ("profile.static.hasHomeLoan", "Has Home Loan", "boolean");
    ("profile.behavioral.salaryCreditsPerMonth", "Salary Credits/Month", "number");
    ("profile.behavioral.rentPaymentsPerMonth", "Rent Payments/Month", "number");
    ("profile.behavioral.marketplaceVisits", "Marketplace Visits", "number");
    ("profile.scores.financialStability", "Financial Stability Score", "number");
    ("profile.scores.homeOwnershipIntent", "Home Ownership Intent", "number");
    ("profile.scores.creditReadiness", "Credit Readiness", "number");
    ("profile.scores.digitalEngagement", "Digital Engagement", "number") ].

(** [OPERATORS]: value and label of the operators that the editor offers. *)
Definition OPERATORS : list (string * string) :=
  [ (">", "Greater than");
    ("<", "Less than");
    ("=", "Equals");
    (">=", "Greater or equal");
    ("<=", "Less or equal");
    ("contains", "Contains");
    ("in", "In list") ].

(** ** Further notions used to state the properties *)

(** A text without a dot: one segment of a path. *)
Fixpoint no_dot (s : string) : bool :=
  match s with
  | EmptyString => true
  | String c rest => negb (Ascii.eqb c "."%char) && no_dot rest
  end.

(** [r.status === 'ACTIVE'] *)
Definition is_active (r : Rule) : bool := RuleStatus_eqb (status r) ACTIVE.

(** A profile whose tags have no duplicate and whose scores have one entry
    per name. *)
Definition well_formed (p : Profile) : Prop :=
  NoDup (tags p) /\ NoDup (map fst (scores p)).

(** A condition that the validation accepts. *)
Definition condition_complete (c : Condition) : Prop :=
  source c <> "" /\ cond_value c <> VStr "" /\ cond_value c <> VNull.

(** An effect that the validation accepts: a score delta has a score name
    and a delta, a tag effect has a tag; any other type passes unchecked. *)
Definition effect_complete (e : Effect) : Prop :=
  (effect_type e = "scoreDelta" ->
     (exists s, score e = Some s /\ s <> "") /\ (exists d, delta e = Some d)) /\
  (effect_type e = "addTag" \/ effect_type e = "removeTag" ->
     exists t, tag e = Some t /\ t <> "").

(** A draft that the validation accepts. *)
Definition draft_valid (trim : string -> string) (rule : PartialRule) : Prop :=
  (exists n, draft_name rule = Some n /\ trim n <> "") /\
  (exists ev, draft_event rule = Some ev) /\
  (exists c cs, draft_conditions rule = Some (c :: cs) /\
                Forall condition_complete (c :: cs)) /\
  (exists e es, draft_effects rule = Some (e :: es) /\
                Forall effect_complete (e :: es)).

(** ** Sample data for worked examples *)

Definition addTag_effect (t : string) : Effect :=
  {| effect_type := "addTag"; score := None; delta := None; tag := Some t |}.

Definition scoreDelta_effect (s : string) (d : Q) : Effect :=
  {| effect_type := "scoreDelta"; score := Some s; delta := Some d; tag := None |}.

Definition sample_profile : Profile :=
  {| customer_id := "cust-001";
     static_data := [("age", VNum 30); ("employment", VStr "salaried")];
     behavioral := [("salaryCreditsPerMonth", VNum 1)];
     scores := [("financialStability", 52); ("homeOwnershipIntent", 35)];
     tags := ["new-customer"; "has-home-loan"];
     last_updated := "2024-01-01T00:00:00.000Z" |}.

Definition salary_event : SimulationEvent :=
  {| event_type := SALARY_CREDIT; payload := [("amount", VNum 65000)] |}.

Definition salary_rule : Rule :=
  {| rule_id := "rule-salary"; rule_name := "Stable salary";
     status := ACTIVE; priority := 90; event := SALARY_CREDIT;
     conditions := [ {| source := "event.amount"; op := ">"; cond_value := VNum 50000 |} ];
     effects := [ scoreDelta_effect "financialStability" 10;
                  addTag_effect "stable-income" ] |}.

Definition stability_rule : Rule :=
  {| rule_id := "rule-stability"; rule_name := "High stability";
     status := ACTIVE; priority := 70; event := SALARY_CREDIT;
     conditions := [ {| source := "profile.scores.financialStability"; op := ">=";
                        cond_value := VNum 60 |} ];
     effects := [ addTag_effect "high-stability" ] |}.

Definition draft_rule : Rule :=
  {| rule_id := "rule-draft"; rule_name := "Draft";
     status := DRAFT; priority := 99; event := SALARY_CREDIT;
     conditions := [];
     effects := [ addTag_effect "drafted" ] |}.

Definition home_loan : Product :=
  {| product_id := "home-loan"; product_name := "Home Loan";
     required_scores := Some [("financialStability", 60); ("homeOwnershipIntent", 50)];
     weight_by_score := Some [("financialStability", 1 # 2); ("homeOwnershipIntent", 1 # 2)];
     exclusions := Some ["bankrupt"; "has-home-loan"];
     active := true |}.

Definition savings : Product :=
  {| product_id := "savings"; product_name := "Savings Account";
     required_scores := Some [("financialStability", 40)];
     weight_by_score := Some [("financialStability", 1)];
     exclusions := None;
     active := true |}.

Definition retired_product : Product :=
  {| product_id := "old"; product_name := "Retired";
     required_scores := None; weight_by_score := None; exclusions := None;
     active := false |}.

Definition sample_catalog : list Product := [retired_product; home_loan; savings].

Definition removeTag_effect (t : string) : Effect :=
  {| effect_type := "removeTag"; score := None; delta := None; tag := Some t |}.

Definition sample_draft : PartialRule :=
  {| draft_name := Some "Stable salary";
     draft_event := Some SALARY_CREDIT;
     draft_conditions := Some (conditions salary_rule);
     draft_effects := Some (effects salary_rule) |}.

(** A trimming of the blanks at both ends, for the worked examples. *)
Fixpoint trim_left (s : string) : string :=
  match s with
  | String c rest => if Ascii.eqb c " "%char then trim_left rest else s
  | EmptyString => EmptyString
  end.

Fixpoint string_rev (s acc : string) : string :=
  match s with
  | EmptyString => acc
  | String c rest => string_rev rest (String c acc)
  end.

Definition trim_blanks (s : string) : string :=
  string_rev (trim_left (string_rev (trim_left s) EmptyString)) EmptyString.

(** * Properties *)

(** ** Path resolver *)

Lemma split_dot_nonempty (s : string) : split_dot s <> [].
Proof.
  destruct s as [|c s]; simpl; [discriminate|].
  destruct (Ascii.eqb c "."); [discriminate|].
  destruct (split_dot s); discriminate.
Qed.

(** Splitting distributes over a dot between two texts. *)
Lemma split_dot_app (p q : string) :
  split_dot (p ++ "." ++ q) = (split_dot p ++ split_dot q)%list.
Proof.
  induction p as [|c p IH]; simpl.
  - reflexivity.
  - destruct (Ascii.eqb c "."); simpl.
    + now rewrite <- IH.
    + simpl in IH. rewrite IH.
      pose proof (split_dot_nonempty p) as Hne.
      destruct (split_dot p); [contradiction|reflexivity].
Qed.





(** ** Sorting *)

Section SortFacts.
Context {A : Type} (compareFn : A -> A -> Q).

Lemma insert_sorted_perm (x : A) (l : list A) :
  Permutation (insert_sorted compareFn x l) (x :: l).
Proof.
  induction l as [|y l IH]; simpl.
  - apply Permutation_refl.
  - destruct (Qlt_bool 0 (compareFn x y)).
    + eapply perm_trans; [apply perm_skip, IH|apply perm_swap].
    + apply Permutation_refl.
Qed.

Lemma Array_sort_perm (l : list A) : Permutation (Array_sort compareFn l) l.
Proof.
  induction l as [|x l IH]; simpl.
  - apply perm_nil.
  - eapply perm_trans; [apply insert_sorted_perm|apply perm_skip, IH].
Qed.

Lemma Array_sort_In (l : list A) (x : A) : In x (Array_sort compareFn l) <-> In x l.
Proof.
  split; apply Permutation_in;
    [apply Array_sort_perm|apply Permutation_sym, Array_sort_perm].
Qed.

Lemma Array_sort_length (l : list A) :
  List.length (Array_sort compareFn l) = List.length l.
Proof. apply Permutation_length, Array_sort_perm. Qed.

(** Stability: elements that the comparator never orders strictly keep their
    input order. *)
Lemma insert_sorted_filter (p : A -> bool) (x : A) (l : list A) :
  (forall y, p x = true -> p y = true -> before compareFn x y = true) ->
  filter p (insert_sorted compareFn x l) = filter p (x :: l).
Proof.
  intro Hp. induction l as [|y l IH]; simpl.
  - reflexivity.
  - destruct (Qlt_bool 0 (compareFn x y)) eqn:Hc; simpl.
    + rewrite IH. simpl.
      destruct (p x) eqn:Hx; [|reflexivity].
      destruct (p y) eqn:Hy; [|reflexivity].
      specialize (Hp y eq_refl Hy). unfold before in Hp.
      rewrite Hc in Hp. discriminate.
    + reflexivity.
Qed.

Lemma Array_sort_stable (p : A -> bool) (l : list A) :
  (forall x y, p x = true -> p y = true -> before compareFn x y = true) ->
  filter p (Array_sort compareFn l) = filter p l.
Proof.
  intro Hp. induction l as [|x l IH]; simpl.
  - reflexivity.
  - rewrite insert_sorted_filter by (intro y; apply Hp).
    simpl. now rewrite IH.
Qed.

Hypothesis before_total :
  forall x y, before compareFn x y = true \/ before compareFn y x = true.
Hypothesis before_trans :
  forall x y z,
    before compareFn x y = true -> before compareFn y z = true ->
    before compareFn x z = true.

Lemma insert_sorted_sorted (x : A) (l : list A) :
  StronglySorted (fun a b => before compareFn a b = true) l ->
  StronglySorted (fun a b => before compareFn a b = true) (insert_sorted compareFn x l).
Proof.
  induction 1 as [|y l Hs IH Hall]; simpl.
  - constructor; constructor.
  - destruct (Qlt_bool 0 (compareFn x y)) eqn:Hc.
    + constructor; [exact IH|].
      eapply Permutation_Forall; [apply Permutation_sym, insert_sorted_perm|].
      constructor; [|exact Hall].
      destruct (before_total y x) as [H|H]; [exact H|].
      unfold before in H. rewrite Hc in H. discriminate.
    + assert (Hxy : before compareFn x y = true) by (unfold before; now rewrite Hc).
      constructor; [constructor; assumption|].
      constructor; [exact Hxy|].
      eapply Forall_impl; [|exact Hall].
      intros z Hz. now apply before_trans with y.
Qed.

Lemma Array_sort_sorted (l : list A) :
  StronglySorted (fun a b => before compareFn a b = true) (Array_sort compareFn l).
Proof.
  induction l as [|x l IH]; simpl.
  - constructor.
  - now apply insert_sorted_sorted.
Qed.

Lemma insert_sorted_front (x : A) (l : list A) :
  Forall (fun y => before compareFn x y = true) l ->
  insert_sorted compareFn x l = x :: l.
Proof.
  intro H. destruct H as [|y l Hy Hl]; simpl; [reflexivity|].
  unfold before in Hy. now destruct (Qlt_bool 0 (compareFn x y)).
Qed.

(** Selecting commutes with inserting into a sorted list. *)
Lemma insert_sorted_select (p : A -> bool) (x : A) (l : list A) :
  StronglySorted (fun a b => before compareFn a b = true) l ->
  filter p (insert_sorted compareFn x l) =
    if p x then insert_sorted compareFn x (filter p l) else filter p l.
Proof.
  induction 1 as [|y l Hs IH Hall]; simpl.
  - now destruct (p x).
  - destruct (Qlt_bool 0 (compareFn x y)) eqn:Hc; simpl.
    + rewrite IH. destruct (p y), (p x); simpl; try reflexivity.
      now rewrite Hc.
    + destruct (p x) eqn:Hx; [|reflexivity].
      symmetry. apply insert_sorted_front.
      assert (Hxy : before compareFn x y = true) by (unfold before; now rewrite Hc).
      assert (Hx_all : Forall (fun z => before compareFn x z = true) (y :: l)).
      { constructor; [exact Hxy|].
        eapply Forall_impl; [|exact Hall].
        intros z Hz. now apply before_trans with y. }
      apply Forall_forall. intros z Hz.
      change (In z (filter p (y :: l))) in Hz. apply filter_In in Hz.
      rewrite Forall_forall in Hx_all. now apply Hx_all.
Qed.

(** Selecting commutes with sorting. *)
Lemma Array_sort_select (p : A -> bool) (l : list A) :
  filter p (Array_sort compareFn l) = Array_sort compareFn (filter p l).
Proof.
  induction l as [|x l IH]; simpl.
  - reflexivity.
  - rewrite insert_sorted_select by apply Array_sort_sorted.
    rewrite IH. now destruct (p x).
Qed.

End SortFacts.

Lemma StronglySorted_filter {A : Type} (R : A -> A -> Prop) (p : A -> bool) (l : list A) :
  StronglySorted R l -> StronglySorted R (filter p l).
Proof.
  induction 1 as [|x l Hs IH Hall]; simpl.
  - constructor.
  - destruct (p x); [|exact IH].
    constructor; [exact IH|].
    apply Forall_forall. intros y Hy. apply filter_In in Hy.
    rewrite Forall_forall in Hall. now apply Hall.
Qed.

Lemma StronglySorted_weaken {A : Type} (R R' : A -> A -> Prop) (l : list A) :
  (forall x y, In x l -> In y l -> R x y -> R' x y) ->
  StronglySorted R l -> StronglySorted R' l.
Proof.
  intros HR Hs. induction Hs as [|x l Hs IH Hall].
  - constructor.
  - constructor.
    + apply IH. intros a b Ha Hb. apply HR; now right.
    + rewrite Forall_forall in *. intros y Hy.
      apply HR; [now left|now right|now apply Hall].
Qed.

Lemma filter_perm {A : Type} (p : A -> bool) (l l' : list A) :
  Permutation l l' -> Permutation (filter p l) (filter p l').
Proof.
  induction 1 as [|x l l' H IH|x y l|l l' l'' H1 IH1 H2 IH2]; simpl.
  - constructor.
  - destruct (p x); [now constructor|assumption].
  - destruct (p x), (p y); try apply Permutation_refl. apply perm_swap.
  - now apply perm_trans with (filter p l').
Qed.

Lemma filter_filter_andb {A : Type} (p q : A -> bool) (l : list A) :
  filter p (filter q l) = filter (fun x => q x && p x) l.
Proof.
  induction l as [|x l IH]; simpl; [reflexivity|].
  destruct (q x); simpl; [destruct (p x)|]; now rewrite IH.
Qed.

(** ** Condition evaluator *)

(** C6: whatever the operator and the target, a source value that is absent
    or [null] does not satisfy the condition. *)
Theorem checkCondition_absent {host : Host} (op : string) (targetValue : option value) :
  checkCondition None op targetValue = false /\
  checkCondition (Some VNull) op targetValue = false.
Proof. split; reflexivity. Qed.

(** A rule with a condition whose source path does not resolve does not
    fire. *)
Corollary allConditionsMet_unresolved {host : Host} (context : jsobject) (rule : Rule)
    (c : Condition) :
  In c (conditions rule) -> getByPath context (source c) = None ->
  allConditionsMet context rule = false.
Proof.
  intros Hin Hnone. unfold allConditionsMet.
  destruct (forallb _ (conditions rule)) eqn:Hall; [|reflexivity].
  rewrite forallb_forall in Hall. specialize (Hall c Hin). simpl in Hall.
  rewrite Hnone in Hall. discriminate.
Qed.

(** ** Effect applicator *)

Section EffectFacts.
Context {host : Host}.

Lemma tags_include_In (ts : list string) (t : string) :
  tags_include ts t = true <-> In t ts.
Proof.
  unfold tags_include. rewrite existsb_exists. split.
  - intros [x [Hin Heq]]. apply String.eqb_eq in Heq. now subst.
  - intro Hin. exists t. split; [assumption|apply String.eqb_refl].
Qed.


Lemma applyEffect_addTag (p : Profile) (e : Effect) (t : string) :
  effect_type e = "addTag" -> tag e = Some t -> t <> "" ->
  applyEffect p e =
    if tags_include (tags p) t then ("", p)
    else ("Added tag " ++ dquote ++ t ++ dquote, set_tags p (push (tags p) t)).
Proof.
  intros Hty Htag Hne. unfold applyEffect. rewrite Hty, Htag. simpl.
  destruct t as [|c t]; [contradiction|]. simpl.
  now destruct (tags_include (tags p) (String c t)).
Qed.



End EffectFacts.




(** ** Rule engine *)

Lemma rule_matches_iff (ev : SimulationEvent) (r : Rule) :
  rule_matches ev r = true <-> status r = ACTIVE /\ event r = event_type ev.
Proof.
  unfold rule_matches. rewrite andb_true_iff. split.
  - intros [Hs He]. split.
    + destruct (status r); simpl in Hs; congruence.
    + destruct (event r), (event_type ev); simpl in He; congruence.
  - intros [Hs He]. rewrite Hs, He. split; [reflexivity|].
    now destruct (event_type ev).
Qed.

Lemma before_priority (a b : Rule) :
  before priority_compare a b = true <-> (priority a >= priority b)%Z.
Proof.
  unfold before, Qlt_bool, priority_compare. rewrite negb_involutive.
  rewrite Qle_bool_iff. unfold Qle. simpl. lia.
Qed.

Lemma before_priority_total (x y : Rule) :
  before priority_compare x y = true \/ before priority_compare y x = true.
Proof.
  destruct (Z_le_gt_dec (priority y) (priority x)) as [H|H];
    [left|right]; apply before_priority; lia.
Qed.

Lemma before_priority_trans (x y z : Rule) :
  before priority_compare x y = true -> before priority_compare y z = true ->
  before priority_compare x z = true.
Proof. rewrite !before_priority. lia. Qed.

(** The rules that meet an event are the matching rules of the input list,
    sorted. *)
Lemma matchingRules_sorted_selection (rules : list Rule) (ev : SimulationEvent) :
  matchingRules (Array_sort priority_compare rules) ev =
    Array_sort priority_compare (filter (rule_matches ev) rules).
Proof.
  unfold matchingRules.
  apply Array_sort_select; [apply before_priority_total|apply before_priority_trans].
Qed.

(** The same list in the order of the steps of the specification: select the
    ACTIVE rules, sort them, then select those of the type of the event. *)
Lemma matchingRules_active_first (rules : list Rule) (ev : SimulationEvent) :
  matchingRules (Array_sort priority_compare rules) ev =
    filter (fun r => RuleEvent_eqb (event r) (event_type ev))
      (Array_sort priority_compare
         (filter (fun r => RuleStatus_eqb (status r) ACTIVE) rules)).
Proof.
  rewrite <- (Array_sort_select priority_compare
                before_priority_total before_priority_trans).
  now rewrite filter_filter_andb.
Qed.

Lemma filter_none {A : Type} (f : A -> bool) (l : list A) :
  (forall x, In x l -> f x = false) -> filter f l = [].
Proof.
  induction l as [|x l IH]; intro H; simpl; [reflexivity|].
  rewrite (H x (or_introl eq_refl)). apply IH. intros y Hy. apply H. now right.
Qed.

Section RuleEngineFacts.
Context {host : Host}.

Lemma effects_loop_spec (p : Profile) (ds : list string) (effs : list Effect) :
  effects_loop p ds effs = (apply_all p effs, (ds ++ describe_all p effs)%list).
Proof.
  revert p ds. induction effs as [|e effs IH]; intros p ds; simpl.
  - now rewrite app_nil_r.
  - rewrite IH. unfold apply_all. simpl. f_equal.
    destruct (nonempty (fst (applyEffect p e))); unfold push; simpl.
    + now rewrite <- app_assoc.
    + reflexivity.
Qed.

Lemma rules_loop_spec (ev : SimulationEvent) (p : Profile) (tr : list TraceEntry)
    (matching : list Rule) :
  rules_loop ev p tr matching = fold_left fire (map (pair ev) matching) (p, tr).
Proof.
  revert p tr. induction matching as [|r rs IH]; intros p tr; simpl.
  - reflexivity.
  - unfold fire at 2. simpl.
    destruct (allConditionsMet (buildContext p ev) r).
    + rewrite effects_loop_spec. simpl. apply IH.
    + apply IH.
Qed.

Lemma events_loop_spec (sortedRules : list Rule) (p : Profile) (tr : list TraceEntry)
    (events : list SimulationEvent) :
  events_loop sortedRules p tr events =
    fold_left fire (firing_schedule sortedRules events) (p, tr).
Proof.
  revert p tr. induction events as [|ev evs IH]; intros p tr; simpl.
  - reflexivity.
  - rewrite fold_left_app, <- rules_loop_spec.
    destruct (rules_loop ev p tr (matchingRules sortedRules ev)) as [p' tr'].
    apply IH.
Qed.


(** C2: without an ACTIVE rule the result is the input profile with only
    [last_updated] replaced, and the trace is empty. *)
Theorem evaluateRules_no_active (rules : list Rule) (P : Profile)
    (events : list SimulationEvent) (now : string) :
  (forall r, In r rules -> status r <> ACTIVE) ->
  evaluateRules rules P events now = (set_last_updated P now, []).
Proof.
  intro Hno. unfold evaluateRules.
  assert (Hnone : forall ev,
            matchingRules (Array_sort priority_compare rules) ev = []).
  { intro ev. apply filter_none. intros r Hr.
    apply -> (Array_sort_In priority_compare) in Hr.
    destruct (rule_matches ev r) eqn:Hm; [|reflexivity].
    apply rule_matches_iff in Hm. destruct Hm as [Hs _].
    now apply Hno in Hr. }
  assert (Hloop : events_loop (Array_sort priority_compare rules) P [] events = (P, [])).
  { induction events as [|ev evs IH]; simpl; [reflexivity|].
    rewrite Hnone. simpl. exact IH. }
  now rewrite Hloop.
Qed.

End RuleEngineFacts.

Lemma evaluateRules_no_active_witness :
  (forall r, In r [draft_rule] -> status r <> ACTIVE) /\
  evaluateRules (host := plain_host) [draft_rule] sample_profile [salary_event] "t1"
    = (set_last_updated sample_profile "t1", []).
Proof.
  assert (H : forall r, In r [draft_rule] -> status r <> ACTIVE).
  { intros r [Hr|[]]. rewrite <- Hr. discriminate. }
  split; [exact H|].
  exact (evaluateRules_no_active (host := plain_host) _ _ _ _ H).
Defined.

(** The worked example of the specification: one salary credit, one rule. *)
Example evaluateRules_salary_credit :
  evaluateRules (host := plain_host) [salary_rule]
    (set_tags sample_profile []) [salary_event] "t1"
  = ({| customer_id := "cust-001";
        static_data := [("age", VNum 30); ("employment", VStr "salaried")];
        behavioral := [("salaryCreditsPerMonth", VNum 1)];
        scores := [("financialStability", 62); ("homeOwnershipIntent", 35)];
        tags := ["stable-income"];
        last_updated := "t1" |},
     [ {| ruleId := "rule-salary"; ruleName := "Stable salary";
          effectDescription :=
            "financialStability +10 (52 → 62); Added tag " ++ dquote
              ++ "stable-income" ++ dquote |} ]).
Proof. vm_compute. reflexivity. Qed.

(** The rule of priority 70 is listed first and needs a score of 60; it
    fires because the rule of priority 90 has raised the score from 52 to 62
    before it is considered. *)
Example evaluateRules_priority_visibility :
  let r := evaluateRules (host := plain_host) [stability_rule; salary_rule]
             sample_profile [salary_event] "t1" in
  map ruleId (snd r) = ["rule-salary"; "rule-stability"] /\
  tags (fst r) = ["new-customer"; "has-home-loan"; "stable-income"; "high-stability"] /\
  snd (evaluateRules (host := plain_host) [stability_rule] sample_profile
         [salary_event] "t1") = [].
Proof. vm_compute. repeat split. Qed.

(** ** Recommendation engine *)

Section ClockFacts.
Context {host : Host}.







End ClockFacts.


(** *** The order of the returned list *)

Lemma before_recommendation (a b : ProductRecommendation) :
  before recommendation_compare a b = true <-> rec_before a b.
Proof.
  unfold before, Qlt_bool, recommendation_compare, rec_before.
  rewrite negb_involutive.
  destruct (decision a), (decision b); simpl; rewrite Qle_bool_iff;
    split; intro; lra.
Qed.

Lemma rec_before_total (a b : ProductRecommendation) : rec_before a b \/ rec_before b a.
Proof.
  unfold rec_before. destruct (decision a), (decision b); auto;
    destruct (Qlt_le_dec (rec_score a) (rec_score b)); auto;
    right; lra.
Qed.

Lemma rec_before_trans (a b c : ProductRecommendation) :
  rec_before a b -> rec_before b c -> rec_before a c.
Proof.
  unfold rec_before.
  destruct (decision a), (decision b), (decision c); intros; try tauto; lra.
Qed.

Lemma rec_before_set_rank (a b : ProductRecommendation) (k k' : nat) :
  rec_before (set_rank a k) (set_rank b k') <-> rec_before a b.
Proof. reflexivity. Qed.

Lemma Array_sort_recommendations_sorted (l : list ProductRecommendation) :
  StronglySorted rec_before (Array_sort recommendation_compare l).
Proof.
  apply StronglySorted_weaken
    with (R := fun a b => before recommendation_compare a b = true).
  - intros x y _ _. apply before_recommendation.
  - apply Array_sort_sorted.
    + intros x y. destruct (rec_before_total x y) as [H|H];
        [left|right]; now apply before_recommendation.
    + intros x y z Hxy Hyz. apply before_recommendation.
      apply before_recommendation in Hxy, Hyz.
      now apply rec_before_trans with y.
Qed.

Lemma assign_ranks_Forall (P : ProductRecommendation -> Prop) (i : nat)
    (l : list ProductRecommendation) :
  (forall r k, P r -> P (set_rank r k)) ->
  Forall P l -> Forall P (assign_ranks i l).
Proof.
  intros HP H. revert i. induction H as [|r l Hr Hl IH]; intro i; simpl.
  - constructor.
  - constructor; [now apply HP|apply IH].
Qed.

Lemma assign_ranks_sorted (i : nat) (l : list ProductRecommendation) :
  StronglySorted rec_before l -> StronglySorted rec_before (assign_ranks i l).
Proof.
  intro H. revert i. induction H as [|r l Hs IH Hall]; intro i; simpl.
  - constructor.
  - constructor; [apply IH|].
    apply assign_ranks_Forall; [|exact Hall].
    intros r' k Hr'. exact Hr'.
Qed.

Lemma assign_ranks_rank (i : nat) (l : list ProductRecommendation) :
  map rank (assign_ranks i l) = seq (i + 1) (List.length l).
Proof.
  revert i. induction l as [|r l IH]; intro i; simpl.
  - reflexivity.
  - f_equal. rewrite IH. reflexivity.
Qed.

Lemma assign_ranks_In (i : nat) (l : list ProductRecommendation)
    (r : ProductRecommendation) :
  In r (assign_ranks i l) -> exists r0 k, In r0 l /\ r = set_rank r0 k.
Proof.
  revert i. induction l as [|x l IH]; intro i; simpl.
  - intros [].
  - intros [H|H].
    + exists x, (i + 1)%nat. split; [now left|now symmetry].
    + destruct (IH _ H) as [r0 [k [Hin Heq]]].
      exists r0, k. split; [now right|assumption].
Qed.

Lemma assign_ranks_covers (i : nat) (l : list ProductRecommendation)
    (r0 : ProductRecommendation) :
  In r0 l -> exists k, In (set_rank r0 k) (assign_ranks i l).
Proof.
  revert i. induction l as [|x l IH]; intro i; simpl.
  - intros [].
  - intros [H|H].
    + subst x. exists (i + 1)%nat. now left.
    + destruct (IH (S i) H) as [k Hk]. exists k. now right.
Qed.

(** A selection and a projection that do not read the rank see the list as
    it was before the ranks were assigned. *)
Lemma assign_ranks_filter_map {B : Type} (q : ProductRecommendation -> bool)
    (g : ProductRecommendation -> B) (i : nat) (l : list ProductRecommendation) :
  (forall r k, q (set_rank r k) = q r) ->
  (forall r k, g (set_rank r k) = g r) ->
  map g (filter q (assign_ranks i l)) = map g (filter q l).
Proof.
  intros Hq Hg. revert i. induction l as [|x l IH]; intro i; simpl.
  - reflexivity.
  - rewrite Hq. destruct (q x); simpl; [rewrite Hg|]; now rewrite IH.
Qed.

(** In a list sorted by [rec_before] the SHOWN entries come first. *)
Lemma sorted_shown_then_hidden (l : list ProductRecommendation) :
  StronglySorted rec_before l -> l = (filter is_shown l ++ filter is_hidden l)%list.
Proof.
  induction 1 as [|x l Hs IH Hall]; simpl.
  - reflexivity.
  - unfold is_shown at 1, is_hidden at 1.
    destruct (decision x) eqn:Hx; simpl.
    + now rewrite <- IH.
    + assert (Hnone : filter is_shown l = []).
      { apply filter_none. intros y Hy. rewrite Forall_forall in Hall.
        specialize (Hall y Hy). unfold rec_before in Hall. rewrite Hx in Hall.
        unfold is_shown. now destruct (decision y). }
      rewrite Hnone in *. simpl in *. now rewrite <- IH.
Qed.

Lemma sorted_by_score (b : ProductRecommendation -> bool) (d : Decision)
    (l : list ProductRecommendation) :
  (forall r, b r = true -> decision r = d) ->
  StronglySorted rec_before l ->
  StronglySorted (fun x y => rec_score y <= rec_score x) (filter b l).
Proof.
  intros Hb Hs.
  apply StronglySorted_weaken with (R := rec_before).
  - intros x y Hx Hy. apply filter_In in Hx, Hy.
    destruct Hx as [_ Hx], Hy as [_ Hy]. apply Hb in Hx, Hy.
    unfold rec_before. rewrite Hx, Hy. now destruct d.
  - now apply StronglySorted_filter.
Qed.

(** *** Scores and rounding *)

Lemma or_zero_default (profile : Profile) (name : string) :
  or_zero (obj_get (scores profile) name) == score_default profile name.
Proof.
  unfold or_zero, score_default.
  destruct (obj_get (scores profile) name) as [q|]; [|reflexivity].
  destruct (Qeq_bool q 0) eqn:Hq; [|reflexivity].
  apply Qeq_bool_iff in Hq. now symmetry.
Qed.



Section RecommendationFacts.
Context {host : Host}.


Lemma obj_get_set {V : Type} (o : record V) (k k' : string) (v : V) :
  obj_get (obj_set o k v) k' = if String.eqb k k' then Some v else obj_get o k'.
Proof.
  induction o as [|[k0 v0] o IH]; simpl.
  - reflexivity.
  - destruct (String.eqb k0 k) eqn:H0; simpl.
    + apply String.eqb_eq in H0. subst k0.
      now destruct (String.eqb k k').
    + destruct (String.eqb k0 k') eqn:H1.
      * apply String.eqb_eq in H1. subst k0.
        rewrite String.eqb_sym in H0. now rewrite H0.
      * exact IH.
Qed.

Lemma requiredScores_loop_met (profile : Profile) (entries : record Q)
    (st : list string * record Q * bool) :
  snd (requiredScores_loop profile entries st) =
    snd st && forallb (threshold_met profile) entries.
Proof.
  revert st. induction entries as [|[n t] rest IH]; intro st; simpl.
  - now rewrite andb_true_r.
  - destruct st as [[w b] a]. unfold threshold_met at 1. simpl.
    destruct (Qle_bool t (or_zero (obj_get (scores profile) n))); rewrite IH; simpl.
    + reflexivity.
    + now rewrite andb_false_r.
Qed.

Lemma requiredScores_loop_breakdown (profile : Profile) (entries : record Q)
    (st : list string * record Q * bool) (name : string) :
  obj_get (snd (fst (requiredScores_loop profile entries st))) name =
    if existsb (fun e => String.eqb (fst e) name) entries
    then Some (or_zero (obj_get (scores profile) name))
    else obj_get (snd (fst st)) name.
Proof.
  revert st. induction entries as [|[n t] rest IH]; intro st; simpl.
  - reflexivity.
  - destruct st as [[w b] a].
    assert (Hboth : forall w' a',
      obj_get (snd (fst (requiredScores_loop profile rest
         (w', obj_set b n (or_zero (obj_get (scores profile) n)), a')))) name =
      if String.eqb n name || existsb (fun e => String.eqb (fst e) name) rest
      then Some (or_zero (obj_get (scores profile) name))
      else obj_get b name).
    { intros w' a'. rewrite IH. simpl. rewrite obj_get_set.
      destruct (existsb _ rest); [now rewrite orb_true_r|].
      rewrite orb_false_r. destruct (String.eqb n name) eqn:Hn; [|reflexivity].
      apply String.eqb_eq in Hn. now subst. }
    destruct (Qle_bool t (or_zero (obj_get (scores profile) n))); apply Hboth.
Qed.

Lemma products_loop_spec (profile : Profile) (acc : list ProductRecommendation)
    (products : list Product) :
  products_loop profile acc products =
    (acc ++ map (recommendation_of profile) (filter active products))%list.
Proof.
  revert acc. induction products as [|prod rest IH]; intro acc; simpl.
  - now rewrite app_nil_r.
  - destruct (active prod); simpl.
    + rewrite IH. unfold push. now rewrite <- app_assoc.
    + apply IH.
Qed.

Lemma recommendation_of_product (profile : Profile) (prod : Product) :
  product (recommendation_of profile prod) = prod.
Proof.
  unfold recommendation_of.
  destruct (existsb _ (or_empty (exclusions prod))); [reflexivity|].
  now destruct (requiredScores_loop profile _ _) as [[w b] a].
Qed.

(** The entries of the result are the records of the active products of the
    catalog, each with a rank. *)
Lemma recommend_In (products : list Product) (profile : Profile)
    (r : ProductRecommendation) :
  In r (recommend products profile) ->
  exists k, In (product r) products /\ active (product r) = true /\
            r = set_rank (recommendation_of profile (product r)) k.
Proof.
  unfold recommend. intro H.
  apply assign_ranks_In in H. destruct H as [r0 [k [Hin Heq]]].
  apply -> (Array_sort_In recommendation_compare) in Hin.
  rewrite products_loop_spec in Hin. simpl in Hin.
  apply in_map_iff in Hin. destruct Hin as [prod [Hr0 Hprod]].
  apply filter_In in Hprod. destruct Hprod as [Hp Ha].
  assert (Hpr : product r = prod).
  { rewrite Heq. simpl. rewrite <- Hr0. apply recommendation_of_product. }
  exists k. rewrite Hpr. repeat split; try assumption. now rewrite Hr0.
Qed.

Lemma recommend_covers (products : list Product) (profile : Profile) (prod : Product) :
  In prod products -> active prod = true ->
  exists r, In r (recommend products profile) /\ product r = prod.
Proof.
  intros Hin Ha. unfold recommend.
  assert (H0 : In (recommendation_of profile prod)
                 (Array_sort recommendation_compare (products_loop profile [] products))).
  { apply (Array_sort_In recommendation_compare).
    rewrite products_loop_spec. simpl. apply in_map, filter_In. now split. }
  destruct (assign_ranks_covers 0 _ _ H0) as [k Hk].
  exists (set_rank (recommendation_of profile prod) k). split; [exact Hk|].
  simpl. apply recommendation_of_product.
Qed.

Lemma recommendation_of_excluded (profile : Profile) (prod : Product)
    (pre post : list string) (t : string) :
  or_empty (exclusions prod) = (pre ++ t :: post)%list ->
  In t (tags profile) ->
  (forall x, In x pre -> ~ In x (tags profile)) ->
  recommendation_of profile prod =
    {| product := prod; decision := HIDDEN; rank := 0;
       rec_score := Math_round (0 * 100) / 100;
       why := [ "Excluded: customer has " ++ dquote ++ t ++ dquote ++ " tag" ];
       scoreBreakdown := [] |}.
Proof.
  intros Hex Ht Hpre. unfold recommendation_of. rewrite Hex.
  assert (Hfind : find (fun x => tags_include (tags profile) x) (pre ++ t :: post)
                  = Some t).
  { clear Hex. induction pre as [|x pre IH]; simpl.
    - apply tags_include_In in Ht. now rewrite Ht.
    - destruct (tags_include (tags profile) x) eqn:Hx.
      + apply tags_include_In in Hx. exfalso. apply (Hpre x); [now left|assumption].
      + apply IH. intros y Hy. apply Hpre. now right. }
  assert (Hsome : existsb (fun x => tags_include (tags profile) x) (pre ++ t :: post)
                  = true).
  { apply existsb_exists. exists t. split.
    - apply in_or_app. right. now left.
    - now apply tags_include_In. }
  now rewrite Hsome, Hfind.
Qed.

(** The first tag of a list that the profile carries, when there is one. *)
Lemma first_match_split (ts excl : list string) :
  (exists x, In x excl /\ In x ts) ->
  exists pre t post,
    excl = (pre ++ t :: post)%list /\ In t ts /\ (forall x, In x pre -> ~ In x ts).
Proof.
  induction excl as [|y excl IH]; intros [x [Hin Hx]]; [destruct Hin|].
  destruct (tags_include ts y) eqn:Hy.
  - exists [], y, excl. repeat split.
    + now apply tags_include_In.
    + intros z [].
  - assert (Hny : ~ In y ts).
    { intro H. apply tags_include_In in H. congruence. }
    destruct Hin as [Heq|Hin]; [subst y; contradiction|].
    destruct IH as [pre [t [post [He [Ht Hpre]]]]]; [now exists x|].
    exists (y :: pre), t, post. repeat split.
    + simpl. now rewrite He.
    + exact Ht.
    + intros z [Hz|Hz]; [now subst z|now apply Hpre].
Qed.

(** C3: an active product with an exclusion tag that the profile carries is
    in the result, HIDDEN, with score 0, an empty score breakdown, and one
    explanation that names the first such tag of its exclusions list. *)
Theorem recommend_excluded (products : list Product) (profile : Profile)
    (prod : Product) :
  In prod products -> active prod = true ->
  (exists x, In x (or_empty (exclusions prod)) /\ In x (tags profile)) ->
  (exists r, In r (recommend products profile) /\ product r = prod) /\
  exists pre t post,
    or_empty (exclusions prod) = (pre ++ t :: post)%list /\
    In t (tags profile) /\
    (forall x, In x pre -> ~ In x (tags profile)) /\
    forall r, In r (recommend products profile) -> product r = prod ->
      decision r = HIDDEN /\
      rec_score r == 0 /\
      scoreBreakdown r = [] /\
      why r = [ "Excluded: customer has " ++ dquote ++ t ++ dquote ++ " tag" ].
Proof.
  intros Hin Ha Hsome. split; [now apply recommend_covers|].
  destruct (first_match_split _ _ Hsome) as [pre [t [post [Hex [Ht Hpre]]]]].
  exists pre, t, post.
  split; [exact Hex|]. split; [exact Ht|]. split; [exact Hpre|].
  intros r Hr Hprod. apply recommend_In in Hr. destruct Hr as [k [_ [_ Heq]]].
  rewrite Hprod in Heq.
  rewrite (recommendation_of_excluded profile prod pre post t Hex Ht Hpre) in Heq.
  rewrite Heq. simpl. repeat split.
Qed.

Lemma recommendation_of_not_excluded (profile : Profile) (prod : Product) :
  (forall t, In t (or_empty (exclusions prod)) -> ~ In t (tags profile)) ->
  recommendation_of profile prod =
    let st := requiredScores_loop profile (or_empty (required_scores prod))
                ([], [], true) in
    {| product := prod;
       decision := if negb (snd st) then HIDDEN else SHOWN;
       rank := 0;
       rec_score :=
         Math_round (weights_loop profile (or_empty (weight_by_score prod)) 0 * 100) / 100;
       why := fst (fst st);
       scoreBreakdown := snd (fst st) |}.
Proof.
  intro Hno. unfold recommendation_of.
  assert (Hex : existsb (fun t => tags_include (tags profile) t)
                  (or_empty (exclusions prod)) = false).
  { destruct (existsb _ (or_empty (exclusions prod))) eqn:He; [|reflexivity].
    apply existsb_exists in He. destruct He as [t [Hin Ht]].
    apply tags_include_In in Ht. now apply Hno in Hin. }
  rewrite Hex. simpl.
  now destruct (requiredScores_loop profile _ _) as [[w b] a].
Qed.

Lemma forallb_false_exists {A : Type} (f : A -> bool) (l : list A) :
  forallb f l = false <-> exists x, In x l /\ f x = false.
Proof.
  induction l as [|y l IH]; simpl.
  - split; [discriminate|intros [x [[] _]]].
  - rewrite andb_false_iff, IH. split.
    + intros [H|[x [Hin Hx]]]; [exists y|exists x]; auto.
    + intros [x [[Heq|Hin] Hx]]; [left; now subst|right; now exists x].
Qed.



(** C5: the result lists the SHOWN entries and then the HIDDEN ones, each
    part by descending score; entries of the same decision and score stand
    in the order of their products in the catalog; and the ranks are
    1, 2, ..., N for the N active products. *)
Theorem recommend_order (products : list Product) (profile : Profile) :
  (exists shown hidden,
     recommend products profile = (shown ++ hidden)%list /\
     Forall (fun r => decision r = SHOWN) shown /\
     Forall (fun r => decision r = HIDDEN) hidden /\
     StronglySorted (fun x y => rec_score y <= rec_score x) shown /\
     StronglySorted (fun x y => rec_score y <= rec_score x) hidden) /\
  (forall d s,
     map product (filter (same_class d s) (recommend products profile)) =
     filter (fun p => same_class d s (recommendation_of profile p))
       (filter active products)) /\
  map rank (recommend products profile) =
    seq 1 (List.length (filter active products)).
Proof.
  assert (Hsorted : StronglySorted rec_before (recommend products profile)).
  { unfold recommend. apply assign_ranks_sorted, Array_sort_recommendations_sorted. }
  split; [|split].
  - exists (filter is_shown (recommend products profile)),
           (filter is_hidden (recommend products profile)).
    split; [now apply sorted_shown_then_hidden|].
    assert (Hs : forall r, is_shown r = true -> decision r = SHOWN).
    { intros r. unfold is_shown. now destruct (decision r). }
    assert (Hh : forall r, is_hidden r = true -> decision r = HIDDEN).
    { intros r. unfold is_hidden. now destruct (decision r). }
    repeat split.
    + apply Forall_forall. intros r Hr. apply filter_In in Hr. now apply Hs.
    + apply Forall_forall. intros r Hr. apply filter_In in Hr. now apply Hh.
    + now apply sorted_by_score with SHOWN.
    + now apply sorted_by_score with HIDDEN.
  - intros d s. unfold recommend.
    rewrite assign_ranks_filter_map by reflexivity.
    rewrite Array_sort_stable.
    + rewrite products_loop_spec. simpl.
      induction (filter active products) as [|p l IH]; simpl; [reflexivity|].
      destruct (same_class d s (recommendation_of profile p)); simpl.
      * now rewrite recommendation_of_product, IH.
      * exact IH.
    + intros x y Hx Hy. unfold same_class in Hx, Hy.
      apply andb_true_iff in Hx, Hy. destruct Hx as [Hdx Hsx], Hy as [Hdy Hsy].
      apply Qeq_bool_iff in Hsx, Hsy. apply before_recommendation.
      unfold rec_before.
      destruct (decision x), (decision y), d; simpl in Hdx, Hdy;
        try discriminate; rewrite Hsx, Hsy; apply Qle_refl.
  - unfold recommend. rewrite assign_ranks_rank, Array_sort_length.
    rewrite products_loop_spec. simpl. now rewrite length_map.
Qed.

End RecommendationFacts.

Lemma recommend_excluded_witness :
  (exists r, In r (recommend (host := plain_host) sample_catalog sample_profile) /\
             product r = home_loan) /\
  exists pre t post,
    [ "bankrupt"; "has-home-loan" ] = (pre ++ t :: post)%list /\
    In t (tags sample_profile) /\
    (forall x, In x pre -> ~ In x (tags sample_profile)) /\
    forall r, In r (recommend (host := plain_host) sample_catalog sample_profile) ->
      product r = home_loan ->
      decision r = HIDDEN /\
      rec_score r == 0 /\
      scoreBreakdown r = [] /\
      why r = [ "Excluded: customer has " ++ dquote ++ t ++ dquote ++ " tag" ].
Proof.
  apply (recommend_excluded (host := plain_host) sample_catalog sample_profile home_loan).
  - simpl. auto.
  - reflexivity.
  - exists "has-home-loan". simpl. auto.
Defined.


(** The worked examples of the specification: the excluded product is last
    with score 0, and a product with one threshold met and one missed is
    HIDDEN with both observed values in its breakdown and its ranking score
    computed all the same. *)
Example recommend_sample :
  map (fun r => (product_id (product r), decision r, rank r, Qred (rec_score r)))
    (recommend (host := plain_host) sample_catalog sample_profile)
  = [ ("savings", SHOWN, 1%nat, 52); ("home-loan", HIDDEN, 2%nat, 0) ].
Proof. vm_compute. reflexivity. Qed.

Example recommend_partial_failure :
  let p := set_tags (set_scores sample_profile
                       [("financialStability", 62); ("homeOwnershipIntent", 35)]) [] in
  map (fun r => (decision r, Qred (rec_score r), why r, scoreBreakdown r))
    (recommend (host := plain_host) [home_loan] p)
  = [ (HIDDEN, 97 # 2,
       [ "✓ financialStability: 62 ≥ 60";
         "✗ homeOwnershipIntent: 35 < 50 required" ],
       [ ("financialStability", 62); ("homeOwnershipIntent", 35) ]) ].
Proof. vm_compute. reflexivity. Qed.

(** * Further properties of the engine *)

(** ** Paths into the context *)

Lemma split_dot_no_dot (s : string) : no_dot s = true -> split_dot s = [s].
Proof.
  induction s as [|c s IH]; simpl; [reflexivity|].
  intro H. apply andb_true_iff in H. destruct H as [Hc Hs].
  apply negb_true_iff in Hc. rewrite Hc, (IH Hs). reflexivity.
Qed.

Lemma obj_get_map_VNum (o : record Q) (name : string) :
  obj_get (map (fun kv => (fst kv, VNum (snd kv))) o) name =
    option_map VNum (obj_get o name).
Proof.
  induction o as [|[k q] o IH]; simpl; [reflexivity|].
  now destruct (String.eqb k name).
Qed.



(** ** Operators of the condition evaluator *)

Section OperatorFacts.
Context {host : Host}.

Lemma prefix_refl (s : string) : String.prefix s s = true.
Proof.
  induction s as [|c s IH]; simpl; [reflexivity|].
  destruct (ascii_dec c c) as [_|H]; [exact IH|contradiction].
Qed.

Lemma includes_refl (s : string) : includes s s = true.
Proof.
  destruct s as [|c s]; [reflexivity|].
  change (includes (String c s) (String c s))
    with (String.prefix (String c s) (String c s) || includes s (String c s)).
  now rewrite prefix_refl.
Qed.

(** X2: the operator [in] on a list target holds exactly when the operator
    [=] holds for some element of the list. *)
Theorem checkCondition_in_any_equal (sourceValue : option value) (vs : list value) :
  checkCondition sourceValue "in" (Some (VArr vs)) =
    existsb (fun v => checkCondition sourceValue "=" (Some v)) vs.
Proof.
  destruct sourceValue as [v|].
  - assert (Hext : forall f g : value -> bool,
              (forall x, f x = g x) -> existsb f vs = existsb g vs).
    { intros f g H. induction vs as [|x l IH]; simpl; [reflexivity|].
      now rewrite H, IH. }
    destruct v; simpl;
      try (apply Hext; intro x; apply String.eqb_sym).
    clear Hext. induction vs; simpl; auto.
  - induction vs; simpl; auto.
Qed.

(** X3: whenever the operator [=] holds, the operator [contains] holds. *)
Theorem checkCondition_equal_contains (sourceValue targetValue : option value) :
  checkCondition sourceValue "=" targetValue = true ->
  checkCondition sourceValue "contains" targetValue = true.
Proof.
  destruct sourceValue as [v|]; [|discriminate].
  destruct v; simpl; try discriminate;
    intro H; apply String.eqb_eq in H; rewrite H; apply includes_refl.
Qed.

(** X4: the numeric operators.  [>] and [<=] never hold together, nor do
    [<] and [>=]; when the source is not null and both sides are numbers,
    exactly one of each pair holds; and when a side is not a number, none of
    the four holds. *)
Theorem checkCondition_numeric (v : value) (targetValue : option value) :
  v <> VNull ->
  match Number_ (Some v), Number_ targetValue with
  | Some x, Some y =>
      checkCondition (Some v) ">" targetValue = Qlt_bool y x /\
      checkCondition (Some v) "<=" targetValue
        = negb (checkCondition (Some v) ">" targetValue) /\
      checkCondition (Some v) "<" targetValue = Qlt_bool x y /\
      checkCondition (Some v) ">=" targetValue
        = negb (checkCondition (Some v) "<" targetValue)
  | _, _ =>
      checkCondition (Some v) ">" targetValue = false /\
      checkCondition (Some v) "<=" targetValue = false /\
      checkCondition (Some v) "<" targetValue = false /\
      checkCondition (Some v) ">=" targetValue = false
  end.
Proof.
  intro Hv.
  destruct v; try contradiction; simpl;
    destruct (Number_ targetValue) as [y|];
    repeat match goal with
           | |- context [if ?b then _ else _] => destruct b
           | |- context [string_to_num ?s] => destruct (string_to_num s)
           end;
    simpl; unfold Qlt_bool; rewrite ?negb_involutive; auto.
Qed.

End OperatorFacts.

Lemma checkCondition_equal_contains_witness :
  checkCondition (host := plain_host) (Some (VStr "Salaried")) "contains"
    (Some (VStr "SALARIED")) = true.
Proof.
  apply (checkCondition_equal_contains (host := plain_host)). reflexivity.
Defined.

Lemma checkCondition_numeric_witness :
  checkCondition (host := plain_host) (Some (VNum 65000)) ">" (Some (VStr "50000")) = true /\
  checkCondition (host := plain_host) (Some (VNum 65000)) "<=" (Some (VStr "50000")) = false /\
  checkCondition (host := plain_host) (Some (VStr "high")) ">=" (Some (VNum 1)) = false.
Proof.
  assert (H1 : VNum 65000 <> VNull) by discriminate.
  assert (H2 : VStr "high" <> VNull) by discriminate.
  pose proof (checkCondition_numeric (host := plain_host) (VNum 65000)
                (Some (VStr "50000")) H1) as [Hgt [Hle _]].
  pose proof (checkCondition_numeric (host := plain_host) (VStr "high")
                (Some (VNum 1)) H2) as [_ [_ [_ Hge]]].
  split; [exact Hgt|]. split; [|exact Hge].
  rewrite Hle, Hgt. reflexivity.
Defined.

(** ** Score deltas and tag removal *)

Lemma indexOf_None (ts : list string) (t : string) :
  indexOf ts t = None <-> ~ In t ts.
Proof.
  induction ts as [|x ts IH]; simpl.
  - split; [intros _ []|reflexivity].
  - destruct (String.eqb_spec x t) as [Heq|Hne].
    + split; [discriminate|]. intro H. exfalso. apply H. now left.
    + destruct (indexOf ts t) eqn:Hi.
      * split; [discriminate|]. intro H. exfalso.
        assert (Hn : ~ In t ts) by (intro; apply H; now right).
        apply IH in Hn. discriminate.
      * split; [|reflexivity]. intros _ [H|H]; [contradiction|].
        now apply (proj1 IH).
Qed.

Lemma indexOf_first (pre post : list string) (t : string) :
  ~ In t pre -> indexOf (pre ++ t :: post) t = Some (List.length pre).
Proof.
  induction pre as [|x pre IH]; simpl; intro Hn.
  - now rewrite String.eqb_refl.
  - destruct (String.eqb_spec x t) as [Heq|Hne].
    + exfalso. apply Hn. now left.
    + rewrite IH; [reflexivity|]. intro H. apply Hn. now right.
Qed.

Lemma splice1_at (pre post : list string) (t : string) :
  splice1 (pre ++ t :: post) (List.length pre) = (pre ++ post)%list.
Proof. induction pre as [|x pre IH]; simpl; [reflexivity|now rewrite IH]. Qed.

Lemma set_tags_same (p : Profile) : set_tags p (tags p) = p.
Proof. now destruct p. Qed.

Section EffectFurtherFacts.
Context {host : Host}.

Lemma applyEffect_scoreDelta (p : Profile) (e : Effect) (s : string) (d : Q) :
  effect_type e = "scoreDelta" -> score e = Some s -> delta e = Some d -> s <> "" ->
  snd (applyEffect p e) =
    set_scores p (obj_set (scores p) s (or_zero (obj_get (scores p) s) + d)) /\
  fst (applyEffect p e) <> "".
Proof.
  intros Hty Hs Hd Hne. unfold applyEffect. rewrite Hty, Hs, Hd. simpl.
  destruct s as [|c s]; [contradiction|]. simpl. split; [reflexivity|discriminate].
Qed.

Lemma applyEffect_removeTag (p : Profile) (e : Effect) (t : string) :
  effect_type e = "removeTag" -> tag e = Some t -> t <> "" ->
  applyEffect p e =
    match indexOf (tags p) t with
    | Some idx => ("Removed tag " ++ dquote ++ t ++ dquote,
                   set_tags p (splice1 (tags p) idx))
    | None => ("", p)
    end.
Proof.
  intros Hty Htag Hne. unfold applyEffect. rewrite Hty, Htag. simpl.
  destruct t as [|c t]; [contradiction|]. reflexivity.
Qed.



(** X7: removing a tag that is absent changes nothing and describes
    nothing; removing a tag that is present deletes its first occurrence,
    keeps the other tags in their order, and gives a description. *)
Theorem applyEffect_removeTag_first (p : Profile) (e : Effect) (t : string) :
  effect_type e = "removeTag" -> tag e = Some t -> t <> "" ->
  (~ In t (tags p) -> applyEffect p e = ("", p)) /\
  (forall pre post,
     tags p = (pre ++ t :: post)%list -> ~ In t pre ->
     applyEffect p e =
       ("Removed tag " ++ dquote ++ t ++ dquote, set_tags p (pre ++ post)%list)).
Proof.
  intros Hty Htag Hne. rewrite (applyEffect_removeTag p e t Hty Htag Hne). split.
  - intro Hn. apply indexOf_None in Hn. now rewrite Hn.
  - intros pre post Htags Hpre.
    rewrite Htags, (indexOf_first pre post t Hpre), splice1_at. reflexivity.
Qed.

(** X8: adding a tag that is absent and then removing it gives back the
    profile as it was. *)
Theorem applyEffect_addTag_removeTag (p : Profile) (ea er : Effect) (t : string) :
  effect_type ea = "addTag" -> tag ea = Some t ->
  effect_type er = "removeTag" -> tag er = Some t ->
  t <> "" -> ~ In t (tags p) ->
  snd (applyEffect (snd (applyEffect p ea)) er) = p.
Proof.
  intros Hta Hga Htr Hgr Hne Habs.
  rewrite (applyEffect_removeTag _ er t Htr Hgr Hne).
  rewrite (applyEffect_addTag p ea t Hta Hga Hne).
  destruct (tags_include (tags p) t) eqn:Hi.
  - apply tags_include_In in Hi. contradiction.
  - simpl. unfold push.
    replace (tags p ++ [t])%list with (tags p ++ t :: [])%list by reflexivity.
    rewrite (indexOf_first (tags p) [] t Habs), splice1_at, app_nil_r. simpl.
    now destruct p.
Qed.

End EffectFurtherFacts.



Lemma applyEffect_removeTag_first_witness :
  applyEffect (host := plain_host) sample_profile (removeTag_effect "vip")
    = ("", sample_profile) /\
  applyEffect (host := plain_host) sample_profile (removeTag_effect "new-customer")
    = ("Removed tag " ++ dquote ++ "new-customer" ++ dquote,
       set_tags sample_profile ["has-home-loan"]).
Proof.
  assert (H1 : "vip" <> "") by discriminate.
  assert (H2 : "new-customer" <> "") by discriminate.
  destruct (applyEffect_removeTag_first (host := plain_host) sample_profile
              (removeTag_effect "vip") "vip" eq_refl eq_refl H1) as [Habs _].
  destruct (applyEffect_removeTag_first (host := plain_host) sample_profile
              (removeTag_effect "new-customer") "new-customer" eq_refl eq_refl H2)
    as [_ Hpres].
  split.
  - apply Habs. simpl. intros [H|[H|[]]]; discriminate H.
  - apply (Hpres [] ["has-home-loan"]); [reflexivity|intros []].
Defined.

Lemma applyEffect_addTag_removeTag_witness :
  snd (applyEffect (host := plain_host)
         (snd (applyEffect (host := plain_host) sample_profile (addTag_effect "vip")))
         (removeTag_effect "vip")) = sample_profile.
Proof.
  apply (applyEffect_addTag_removeTag (host := plain_host) sample_profile
           (addTag_effect "vip") (removeTag_effect "vip") "vip");
    try reflexivity; try discriminate.
  simpl. intros [H|[H|[]]]; discriminate H.
Defined.

(** ** What the effects keep *)

Lemma obj_set_keys_In {V : Type} (o : record V) (k k' : string) (v : V) :
  In k' (map fst (obj_set o k v)) <-> In k' (map fst o) \/ k' = k.
Proof.
  induction o as [|[k0 v0] o IH]; simpl.
  - split; [intros [H|[]]; right; now symmetry|intros [[]|H]; left; now symmetry].
  - destruct (String.eqb_spec k0 k) as [Heq|Hne]; simpl.
    + subst k0. split; [tauto|]. intros [H|H]; [exact H|left; now symmetry].
    + rewrite IH. tauto.
Qed.

Lemma obj_set_keys_NoDup {V : Type} (o : record V) (k : string) (v : V) :
  NoDup (map fst o) -> NoDup (map fst (obj_set o k v)).
Proof.
  induction o as [|[k0 v0] o IH]; simpl; intro H.
  - constructor; [intros []|constructor].
  - destruct (String.eqb_spec k0 k) as [Heq|Hne]; simpl; [exact H|].
    inversion H as [|x l Hnin Hnd]; subst. constructor; [|now apply IH].
    rewrite obj_set_keys_In. intros [Hin|Heq]; [contradiction|congruence].
Qed.

Lemma splice1_In (ts : list string) (idx : nat) (x : string) :
  In x (splice1 ts idx) -> In x ts.
Proof.
  revert idx. induction ts as [|y ts IH]; intros idx; simpl; [intros []|].
  destruct idx as [|i]; simpl.
  - intro H. now right.
  - intros [H|H]; [now left|right; now apply (IH i)].
Qed.

Lemma splice1_NoDup (ts : list string) (idx : nat) :
  NoDup ts -> NoDup (splice1 ts idx).
Proof.
  revert idx. induction ts as [|y ts IH]; intros idx H; simpl; [constructor|].
  inversion H as [|x l Hnin Hnd]; subst.
  destruct idx as [|i]; [exact Hnd|].
  constructor; [|now apply IH].
  intro Hin. apply Hnin. now apply splice1_In with i.
Qed.

Section EngineInvariants.
Context {host : Host}.

(** One effect changes the scores or the tags and nothing else. *)
Lemma applyEffect_frame (p : Profile) (e : Effect) :
  customer_id (snd (applyEffect p e)) = customer_id p /\
  static_data (snd (applyEffect p e)) = static_data p /\
  behavioral (snd (applyEffect p e)) = behavioral p /\
  last_updated (snd (applyEffect p e)) = last_updated p.
Proof.
  unfold applyEffect.
  repeat match goal with
         | |- context [if ?b then _ else _] => destruct b
         | |- context [match ?x with _ => _ end] => destruct x
         end; simpl; auto.
Qed.

Lemma applyEffect_well_formed (p : Profile) (e : Effect) :
  well_formed p -> well_formed (snd (applyEffect p e)).
Proof.
  intros [Ht Hs]. unfold applyEffect, well_formed.
  destruct (String.eqb (effect_type e) "scoreDelta").
  { destruct (truthy (score e)) as [sc|]; [|now split].
    destruct (delta e) as [d|]; [|now split].
    simpl. split; [exact Ht|now apply obj_set_keys_NoDup]. }
  destruct (String.eqb (effect_type e) "addTag").
  { destruct (truthy (tag e)) as [t|]; [|now split].
    destruct (tags_include (tags p) t) eqn:Hi; simpl; [now split|].
    split; [|exact Hs]. unfold push.
    apply NoDup_app; [exact Ht|constructor; [intros []|constructor]|].
    intros x Hx [Heq|[]]. subst x.
    apply tags_include_In in Hx. congruence. }
  destruct (String.eqb (effect_type e) "removeTag"); [|now split].
  destruct (truthy (tag e)) as [t|]; [|now split].
  destruct (indexOf (tags p) t) as [idx|]; simpl; [|now split].
  split; [now apply splice1_NoDup|exact Hs].
Qed.

(** The clock stamp of the profile passes through an effect untouched and
    unread. *)
Lemma applyEffect_set_last_updated (p : Profile) (e : Effect) (t : string) :
  applyEffect (set_last_updated p t) e =
    (fst (applyEffect p e), set_last_updated (snd (applyEffect p e)) t).
Proof.
  unfold applyEffect. simpl.
  repeat match goal with
         | |- context [if ?b then _ else _] => destruct b
         | |- context [match ?x with _ => _ end] => destruct x
         end; reflexivity.
Qed.

Lemma apply_all_invariant (P : Profile -> Prop) (effs : list Effect) (p : Profile) :
  (forall q e, P q -> P (snd (applyEffect q e))) -> P p -> P (apply_all p effs).
Proof.
  intro HP. unfold apply_all. revert p.
  induction effs as [|e effs IH]; intros p Hp; simpl; [exact Hp|].
  apply IH. now apply HP.
Qed.

Lemma fire_invariant (P : Profile -> Prop) (st : Profile * list TraceEntry)
    (er : SimulationEvent * Rule) :
  (forall q e, P q -> P (snd (applyEffect q e))) -> P (fst st) -> P (fst (fire st er)).
Proof.
  intros HP Hst. unfold fire.
  destruct (allConditionsMet _ _); [|exact Hst].
  simpl. now apply apply_all_invariant.
Qed.

Lemma fold_fire_invariant (P : Profile -> Prop) (sched : list (SimulationEvent * Rule))
    (st : Profile * list TraceEntry) :
  (forall q e, P q -> P (snd (applyEffect q e))) ->
  P (fst st) -> P (fst (fold_left fire sched st)).
Proof.
  intro HP. revert st. induction sched as [|er sched IH]; intros st Hst; simpl.
  - exact Hst.
  - apply IH. now apply fire_invariant.
Qed.

(** The engine as one fold over its schedule. *)
Lemma evaluateRules_fold (rules : list Rule) (p : Profile)
    (events : list SimulationEvent) (now : string) :
  evaluateRules rules p events now =
    (set_last_updated
       (fst (fold_left fire
               (firing_schedule (Array_sort priority_compare rules) events) (p, [])))
       now,
     snd (fold_left fire
            (firing_schedule (Array_sort priority_compare rules) events) (p, []))).
Proof. unfold evaluateRules. now rewrite events_loop_spec. Qed.

(** X9: the engine keeps a profile well formed: if the tags of the input have
    no duplicate and its scores one entry per name, so has the result,
    whatever the rules and the events. *)
Theorem evaluateRules_well_formed (rules : list Rule) (p : Profile)
    (events : list SimulationEvent) (now : string) :
  well_formed p -> well_formed (fst (evaluateRules rules p events now)).
Proof.
  intro Hp. rewrite evaluateRules_fold. simpl.
  assert (H : well_formed
                (fst (fold_left fire
                        (firing_schedule (Array_sort priority_compare rules) events)
                        (p, [])))).
  { apply fold_fire_invariant; [apply applyEffect_well_formed|exact Hp]. }
  exact H.
Qed.

(** X10: the engine never changes the customer id, the static data or the
    behavioural data of the profile. *)
Theorem evaluateRules_frame (rules : list Rule) (p : Profile)
    (events : list SimulationEvent) (now : string) :
  customer_id (fst (evaluateRules rules p events now)) = customer_id p /\
  static_data (fst (evaluateRules rules p events now)) = static_data p /\
  behavioral (fst (evaluateRules rules p events now)) = behavioral p.
Proof.
  rewrite evaluateRules_fold. simpl.
  apply (fold_fire_invariant
           (fun q => customer_id q = customer_id p /\
                     static_data q = static_data p /\
                     behavioral q = behavioral p)).
  - intros q e [Hc [Hs Hb]].
    destruct (applyEffect_frame q e) as [Hc' [Hs' [Hb' _]]].
    rewrite Hc', Hs', Hb'. auto.
  - simpl. auto.
Qed.

End EngineInvariants.

Lemma evaluateRules_well_formed_witness :
  well_formed sample_profile /\
  well_formed (fst (evaluateRules (host := plain_host) [stability_rule; salary_rule]
                      sample_profile [salary_event; salary_event] "t1")).
Proof.
  assert (H : well_formed sample_profile).
  { split; simpl.
    - constructor; [intros [H|[]]; discriminate H|].
      constructor; [intros []|constructor].
    - constructor; [intros [H|[]]; discriminate H|].
      constructor; [intros []|constructor]. }
  split; [exact H|].
  exact (evaluateRules_well_formed (host := plain_host) _ _ _ _ H).
Defined.

(** ** Which rules count, and in which order *)

Section SortFurtherFacts.
Context {A : Type} (compareFn : A -> A -> Q).

(** Sorting a sorted list changes nothing. *)
Lemma Array_sort_sorted_id (l : list A) :
  StronglySorted (fun a b => before compareFn a b = true) l ->
  Array_sort compareFn l = l.
Proof.
  induction 1 as [|x l Hs IH Hall]; simpl; [reflexivity|].
  rewrite IH. now apply insert_sorted_front.
Qed.

(** Two sorted lists with the same elements are equal when the order tells
    different elements apart. *)
Lemma sorted_perm_unique (R : A -> A -> Prop) (l1 l2 : list A) :
  (forall x y, In x l1 -> In y l1 -> R x y -> R y x -> x = y) ->
  StronglySorted R l1 -> StronglySorted R l2 -> Permutation l1 l2 -> l1 = l2.
Proof.
  revert l2. induction l1 as [|x l1 IH]; intros l2 Hanti H1 H2 Hperm.
  - apply Permutation_nil in Hperm. now subst.
  - destruct l2 as [|y l2].
    + apply Permutation_sym, Permutation_nil in Hperm. discriminate.
    + inversion H1 as [|? ? Hs1 Hall1]; subst.
      inversion H2 as [|? ? Hs2 Hall2]; subst.
      rewrite Forall_forall in Hall1, Hall2.
      assert (Hxy : x = y).
      { assert (Hx : In x (y :: l2)) by (eapply Permutation_in; [exact Hperm|now left]).
        assert (Hy : In y (x :: l1))
          by (eapply Permutation_in; [apply Permutation_sym, Hperm|now left]).
        destruct Hx as [Hx|Hx]; [now symmetry|].
        destruct Hy as [Hy|Hy]; [assumption|].
        apply Hanti; [now left|now right|now apply Hall1|now apply Hall2]. }
      subst y. f_equal. apply IH; try assumption.
      * intros a b Ha Hb. apply Hanti; now right.
      * now apply Permutation_cons_inv with x.
Qed.

End SortFurtherFacts.

Lemma filter_ext_in_bool {A : Type} (f g : A -> bool) (l : list A) :
  (forall x, In x l -> f x = g x) -> filter f l = filter g l.
Proof.
  induction l as [|x l IH]; intro H; simpl; [reflexivity|].
  rewrite (H x (or_introl eq_refl)), IH; [reflexivity|].
  intros y Hy. apply H. now right.
Qed.

Lemma flat_map_ext_all {A B : Type} (f g : A -> list B) (l : list A) :
  (forall x, f x = g x) -> flat_map f l = flat_map g l.
Proof.
  intro H. induction l as [|x l IH]; simpl; [reflexivity|]. now rewrite H, IH.
Qed.

Section RuleSelection.
Context {host : Host}.

(** The result depends on the rules only through the lists of matching
    rules. *)
Lemma evaluateRules_matching (rules rules' : list Rule) (p : Profile)
    (events : list SimulationEvent) (now : string) :
  (forall ev, matchingRules (Array_sort priority_compare rules) ev =
              matchingRules (Array_sort priority_compare rules') ev) ->
  evaluateRules rules p events now = evaluateRules rules' p events now.
Proof.
  intro H. rewrite !evaluateRules_fold. unfold firing_schedule.
  rewrite (flat_map_ext_all _
             (fun ev => map (pair ev)
                          (matchingRules (Array_sort priority_compare rules') ev)));
    [reflexivity|].
  intro ev. now rewrite H.
Qed.

Lemma matchingRules_active_only (rules : list Rule) (ev : SimulationEvent) :
  matchingRules (Array_sort priority_compare (filter is_active rules)) ev =
    matchingRules (Array_sort priority_compare rules) ev.
Proof.
  rewrite !matchingRules_sorted_selection. f_equal.
  rewrite filter_filter_andb. apply filter_ext_in_bool.
  intros r _. unfold is_active, rule_matches.
  now destruct (RuleStatus_eqb (status r) ACTIVE).
Qed.

(** X11: rules that are not ACTIVE have no influence, and sorting the rules
    beforehand by descending priority has none either: the engine gives the
    same result on the ACTIVE rules alone, on the rules sorted, and on the
    ACTIVE rules sorted. *)
Theorem evaluateRules_prefiltered (rules : list Rule) (p : Profile)
    (events : list SimulationEvent) (now : string) :
  evaluateRules (filter is_active rules) p events now
    = evaluateRules rules p events now /\
  evaluateRules (Array_sort priority_compare rules) p events now
    = evaluateRules rules p events now /\
  evaluateRules (Array_sort priority_compare (filter is_active rules)) p events now
    = evaluateRules rules p events now.
Proof.
  assert (Hid : forall l, Array_sort priority_compare (Array_sort priority_compare l)
                          = Array_sort priority_compare l).
  { intro l. apply Array_sort_sorted_id, Array_sort_sorted;
      [apply before_priority_total|apply before_priority_trans]. }
  split; [|split]; apply evaluateRules_matching; intro ev.
  - apply matchingRules_active_only.
  - now rewrite Hid.
  - rewrite Hid. apply matchingRules_active_only.
Qed.

(** X12: when the ACTIVE rules have pairwise different priorities, the order
    in which the rules are listed has no influence on the result. *)
Theorem evaluateRules_permutation (rules rules' : list Rule) (p : Profile)
    (events : list SimulationEvent) (now : string) :
  Permutation rules rules' ->
  (forall x y, In x rules -> In y rules -> status x = ACTIVE -> status y = ACTIVE ->
               priority x = priority y -> x = y) ->
  evaluateRules rules p events now = evaluateRules rules' p events now.
Proof.
  intros Hperm Hdist. apply evaluateRules_matching. intro ev.
  rewrite <- (matchingRules_active_only rules), <- (matchingRules_active_only rules').
  f_equal.
  apply sorted_perm_unique with (R := fun a b => before priority_compare a b = true).
  - intros x y Hx Hy Hxy Hyx.
    apply -> (Array_sort_In priority_compare) in Hx.
    apply -> (Array_sort_In priority_compare) in Hy.
    apply filter_In in Hx, Hy. destruct Hx as [Hx Hax], Hy as [Hy Hay].
    apply before_priority in Hxy, Hyx.
    apply Hdist; try assumption; try lia.
    + unfold is_active in Hax. now destruct (status x).
    + unfold is_active in Hay. now destruct (status y).
  - apply Array_sort_sorted; [apply before_priority_total|apply before_priority_trans].
  - apply Array_sort_sorted; [apply before_priority_total|apply before_priority_trans].
  - eapply perm_trans; [apply Array_sort_perm|].
    eapply perm_trans; [|apply Permutation_sym, Array_sort_perm].
    now apply filter_perm.
Qed.

End RuleSelection.

Lemma evaluateRules_permutation_witness :
  evaluateRules (host := plain_host) [stability_rule; draft_rule; salary_rule]
    sample_profile [salary_event] "t1"
  = evaluateRules (host := plain_host) [salary_rule; stability_rule; draft_rule]
    sample_profile [salary_event] "t1".
Proof.
  apply (evaluateRules_permutation (host := plain_host)).
  - apply Permutation_sym.
    apply (Permutation_cons_app [stability_rule; draft_rule] [] salary_rule).
    rewrite app_nil_r. apply Permutation_refl.
  - intros x y [Hx|[Hx|[Hx|[]]]] [Hy|[Hy|[Hy|[]]]] Hsx Hsy Hp;
      subst x y; try reflexivity; try discriminate Hsx; try discriminate Hsy;
      discriminate Hp.
Defined.

(** ** The trace and the running profile *)

Section TraceFacts.
Context {host : Host}.

Lemma apply_all_set_last_updated (effs : list Effect) (p : Profile) (t : string) :
  apply_all (set_last_updated p t) effs = set_last_updated (apply_all p effs) t.
Proof.
  unfold apply_all. revert p. induction effs as [|e effs IH]; intro p; simpl.
  - reflexivity.
  - rewrite applyEffect_set_last_updated. simpl. apply IH.
Qed.

Lemma describe_all_set_last_updated (effs : list Effect) (p : Profile) (t : string) :
  describe_all (set_last_updated p t) effs = describe_all p effs.
Proof.
  revert p. induction effs as [|e effs IH]; intro p; simpl; [reflexivity|].
  rewrite applyEffect_set_last_updated. simpl. now rewrite IH.
Qed.

(** A step either leaves the state as it is or appends one entry that bears
    the id and the name of its rule. *)
Lemma fire_cases (st : Profile * list TraceEntry) (er : SimulationEvent * Rule) :
  fire st er = st \/
  exists entry,
    fire st er = (apply_all (fst st) (effects (snd er)), (snd st ++ [entry])%list) /\
    ruleId entry = rule_id (snd er) /\ ruleName entry = rule_name (snd er).
Proof.
  unfold fire. destruct (allConditionsMet _ _); [|now left].
  right. eexists. split; [reflexivity|]. split; reflexivity.
Qed.

(** The trace only grows, by at most one entry per step, each entry from a
    pair of the schedule. *)
Lemma fold_fire_trace (sched : list (SimulationEvent * Rule))
    (st : Profile * list TraceEntry) :
  exists added,
    snd (fold_left fire sched st) = (snd st ++ added)%list /\
    (List.length added <= List.length sched)%nat /\
    (forall t, In t added ->
       exists er, In er sched /\ ruleId t = rule_id (snd er) /\
                  ruleName t = rule_name (snd er)).
Proof.
  revert st. induction sched as [|er sched IH]; intro st; simpl.
  - exists []. rewrite app_nil_r. split; [reflexivity|].
    split; [apply le_n|intros t []].
  - destruct (IH (fire st er)) as [added [Heq [Hlen Hsrc]]].
    destruct (fire_cases st er) as [Hsame|[entry [Hfire [Hid Hname]]]].
    + rewrite Hsame in *. exists added. split; [exact Heq|]. split; [lia|].
      intros t Ht. destruct (Hsrc t Ht) as [er' [Hin H]]. exists er'. split; [now right|exact H].
    + rewrite Hfire in Heq |- *. simpl in Heq. exists (entry :: added).
      split; [rewrite Heq, <- app_assoc; reflexivity|]. split; [simpl; lia|].
      intros t [Ht|Ht].
      * subst t. exists er. split; [now left|now split].
      * destruct (Hsrc t Ht) as [er' [Hin H]]. exists er'. split; [now right|exact H].
Qed.

(** A state whose trace did not grow has the profile it started with. *)
Lemma fold_fire_unchanged (sched : list (SimulationEvent * Rule))
    (st : Profile * list TraceEntry) :
  snd (fold_left fire sched st) = snd st -> fst (fold_left fire sched st) = fst st.
Proof.
  revert st. induction sched as [|er sched IH]; intro st; simpl; [reflexivity|].
  intro H. destruct (fire_cases st er) as [Hsame|[entry [Hfire _]]].
  - rewrite Hsame in *. now apply IH.
  - exfalso. destruct (fold_fire_trace sched (fire st er)) as [added [Heq _]].
    rewrite Hfire in Heq, H. simpl in Heq. rewrite H in Heq.
    apply (f_equal (@List.length TraceEntry)) in Heq.
    rewrite !length_app in Heq. simpl in Heq. lia.
Qed.

Lemma fire_from_trace (p : Profile) (tr : list TraceEntry)
    (er : SimulationEvent * Rule) :
  fire (p, tr) er = (fst (fire (p, []) er), (tr ++ snd (fire (p, []) er))%list).
Proof.
  unfold fire. simpl.
  destruct (allConditionsMet (buildContext p (fst er)) (snd er)); simpl.
  - reflexivity.
  - now rewrite app_nil_r.
Qed.

(** The trace collected from a start trace is the start trace followed by
    the trace collected from the empty one; the profile is the same. *)
Lemma fold_fire_from_trace (sched : list (SimulationEvent * Rule)) (p : Profile)
    (tr : list TraceEntry) :
  fold_left fire sched (p, tr) =
    (fst (fold_left fire sched (p, [])),
     (tr ++ snd (fold_left fire sched (p, [])))%list).
Proof.
  revert p tr. induction sched as [|er sched IH]; intros p tr; simpl.
  - now rewrite app_nil_r.
  - rewrite fire_from_trace.
    destruct (fire (p, []) er) as [p' tr']. simpl.
    rewrite (IH p' (tr ++ tr')%list), (IH p' tr'). simpl.
    now rewrite app_assoc.
Qed.

Lemma fire_set_last_updated (p : Profile) (tr : list TraceEntry) (t : string)
    (er : SimulationEvent * Rule) :
  fire (set_last_updated p t, tr) er =
    (set_last_updated (fst (fire (p, tr) er)) t, snd (fire (p, tr) er)).
Proof.
  unfold fire. simpl.
  change (buildContext (set_last_updated p t) (fst er)) with (buildContext p (fst er)).
  destruct (allConditionsMet (buildContext p (fst er)) (snd er)); simpl.
  - now rewrite apply_all_set_last_updated, describe_all_set_last_updated.
  - reflexivity.
Qed.

Lemma fold_fire_set_last_updated (sched : list (SimulationEvent * Rule)) (p : Profile)
    (tr : list TraceEntry) (t : string) :
  fold_left fire sched (set_last_updated p t, tr) =
    (set_last_updated (fst (fold_left fire sched (p, tr))) t,
     snd (fold_left fire sched (p, tr))).
Proof.
  revert p tr. induction sched as [|er sched IH]; intros p tr; simpl; [reflexivity|].
  rewrite fire_set_last_updated.
  destruct (fire (p, tr) er) as [p' tr']. simpl. apply IH.
Qed.

Lemma firing_schedule_app (sortedRules : list Rule) (e1 e2 : list SimulationEvent) :
  firing_schedule sortedRules (e1 ++ e2) =
    (firing_schedule sortedRules e1 ++ firing_schedule sortedRules e2)%list.
Proof. unfold firing_schedule. apply flat_map_app. Qed.

Lemma firing_schedule_In (sortedRules : list Rule) (events : list SimulationEvent)
    (ev : SimulationEvent) (r : Rule) :
  In (ev, r) (firing_schedule sortedRules events) <->
  In ev events /\ In r (matchingRules sortedRules ev).
Proof.
  unfold firing_schedule. rewrite in_flat_map. split.
  - intros [ev' [Hev Hin]]. apply in_map_iff in Hin.
    destruct Hin as [r' [Heq Hr]]. inversion Heq; subst. now split.
  - intros [Hev Hr]. exists ev. split; [exact Hev|]. now apply in_map.
Qed.

Lemma firing_schedule_length (sortedRules : list Rule) (events : list SimulationEvent) :
  (List.length (firing_schedule sortedRules events)
   <= List.length events * List.length sortedRules)%nat.
Proof.
  induction events as [|ev evs IH]; simpl; [lia|].
  rewrite length_app, length_map.
  pose proof (filter_length_le (rule_matches ev) sortedRules) as Hf.
  unfold matchingRules. lia.
Qed.

(** X13: events may be handed over in batches: evaluating a list of events
    gives the profile (and its clock stamp) of evaluating a first part and
    then the rest on the profile the first call returned, and the trace of
    the first call followed by the trace of the second. *)
Theorem evaluateRules_batches (rules : list Rule) (p : Profile)
    (e1 e2 : list SimulationEvent) (now1 now : string) :
  evaluateRules rules p (e1 ++ e2) now =
    (fst (evaluateRules rules (fst (evaluateRules rules p e1 now1)) e2 now),
     (snd (evaluateRules rules p e1 now1)
      ++ snd (evaluateRules rules (fst (evaluateRules rules p e1 now1)) e2 now))%list).
Proof.
  rewrite !evaluateRules_fold. simpl.
  rewrite firing_schedule_app, fold_left_app.
  set (s1 := firing_schedule (Array_sort priority_compare rules) e1).
  set (s2 := firing_schedule (Array_sort priority_compare rules) e2).
  destruct (fold_left fire s1 (p, [])) as [p1 tr1] eqn:H1. simpl.
  rewrite fold_fire_from_trace, fold_fire_set_last_updated. reflexivity.
Qed.

(** X14: every entry of the trace bears the id and the name of an ACTIVE
    rule of the input whose event type is the type of one of the events; and
    the trace has at most one entry per pair of an event and a rule. *)
Theorem evaluateRules_trace_sources (rules : list Rule) (p : Profile)
    (events : list SimulationEvent) (now : string) :
  (forall t, In t (snd (evaluateRules rules p events now)) ->
     exists r ev,
       In r rules /\ status r = ACTIVE /\ In ev events /\ event r = event_type ev /\
       ruleId t = rule_id r /\ ruleName t = rule_name r) /\
  (List.length (snd (evaluateRules rules p events now))
   <= List.length events * List.length rules)%nat.
Proof.
  rewrite evaluateRules_fold. simpl.
  destruct (fold_fire_trace
              (firing_schedule (Array_sort priority_compare rules) events) (p, []))
    as [added [Heq [Hlen Hsrc]]].
  simpl in Heq. rewrite Heq. split.
  - intros t Ht. destruct (Hsrc t Ht) as [[ev r] [Hin [Hid Hname]]].
    apply firing_schedule_In in Hin. destruct Hin as [Hev Hr].
    unfold matchingRules in Hr. apply filter_In in Hr. destruct Hr as [Hr Hm].
    apply -> (Array_sort_In priority_compare) in Hr.
    apply rule_matches_iff in Hm. destruct Hm as [Hs He].
    exists r, ev. simpl in Hid, Hname. repeat split; assumption.
  - pose proof (firing_schedule_length (Array_sort priority_compare rules) events) as Hb.
    rewrite Array_sort_length in Hb. lia.
Qed.

(** X15: a call that returns an empty trace returns the input profile, with
    only the clock stamp replaced. *)
Theorem evaluateRules_empty_trace (rules : list Rule) (p : Profile)
    (events : list SimulationEvent) (now : string) :
  snd (evaluateRules rules p events now) = [] ->
  fst (evaluateRules rules p events now) = set_last_updated p now.
Proof.
  rewrite evaluateRules_fold. simpl. intro H.
  now rewrite (fold_fire_unchanged _ (p, []) H).
Qed.

(** X16: an ACTIVE rule without conditions fires on every event of its type:
    for each such event of the input the trace has an entry of the rule. *)
Theorem evaluateRules_unconditional (rules : list Rule) (p : Profile)
    (events : list SimulationEvent) (now : string) (r : Rule) (ev : SimulationEvent) :
  In r rules -> status r = ACTIVE -> conditions r = [] ->
  In ev events -> event r = event_type ev ->
  exists t, In t (snd (evaluateRules rules p events now)) /\
            ruleId t = rule_id r /\ ruleName t = rule_name r.
Proof.
  intros Hr Hs Hc Hev He. rewrite evaluateRules_fold. simpl.
  assert (Hin : In (ev, r)
                  (firing_schedule (Array_sort priority_compare rules) events)).
  { apply firing_schedule_In. split; [exact Hev|].
    unfold matchingRules. apply filter_In. split.
    - now apply (Array_sort_In priority_compare).
    - now apply rule_matches_iff. }
  generalize (p, @nil TraceEntry).
  induction (firing_schedule (Array_sort priority_compare rules) events)
    as [|er sched IH]; intro st; [destruct Hin|].
  simpl. destruct Hin as [Heq|Hin].
  - subst er. unfold fire at 2. unfold allConditionsMet. simpl. rewrite Hc. simpl.
    match goal with
    | |- context [fold_left fire sched (?q, (?tr ++ [?entry])%list)] =>
        destruct (fold_fire_trace sched (q, (tr ++ [entry])%list)) as [added [Heq _]];
        exists entry
    end.
    rewrite Heq. simpl. split; [|split; reflexivity].
    apply in_or_app. left. apply in_or_app. right. now left.
  - now apply IH.
Qed.

End TraceFacts.

Lemma evaluateRules_empty_trace_witness :
  fst (evaluateRules (host := plain_host) [stability_rule] sample_profile
         [salary_event] "t1") = set_last_updated sample_profile "t1".
Proof.
  apply (evaluateRules_empty_trace (host := plain_host)). reflexivity.
Defined.

Lemma evaluateRules_unconditional_witness :
  exists t,
    In t (snd (evaluateRules (host := plain_host)
                 [ {| rule_id := "rule-login"; rule_name := "Seen";
                      status := ACTIVE; priority := 10; event := SALARY_CREDIT;
                      conditions := []; effects := [ addTag_effect "seen" ] |} ]
                 sample_profile [salary_event] "t1")) /\
    ruleId t = "rule-login" /\ ruleName t = "Seen".
Proof.
  apply (evaluateRules_unconditional (host := plain_host) _ _ _ _
           {| rule_id := "rule-login"; rule_name := "Seen";
              status := ACTIVE; priority := 10; event := SALARY_CREDIT;
              conditions := []; effects := [ addTag_effect "seen" ] |}
           salary_event); try reflexivity; now left.
Defined.

(** ** Decisions and explanations of the recommendations *)

Section DecisionFacts.
Context {host : Host}.

Lemma threshold_met_true (profile : Profile) (n : string) (t : Q) :
  threshold_met profile (n, t) = true <-> t <= score_default profile n.
Proof.
  unfold threshold_met. simpl. rewrite Qle_bool_iff. now rewrite or_zero_default.
Qed.

(** The decision on one product. *)
Lemma recommendation_of_shown (profile : Profile) (prod : Product) :
  decision (recommendation_of profile prod) = SHOWN <->
  (forall t, In t (or_empty (exclusions prod)) -> ~ In t (tags profile)) /\
  (forall n th, In (n, th) (or_empty (required_scores prod)) ->
                th <= score_default profile n).
Proof.
  destruct (existsb (fun t => tags_include (tags profile) t)
              (or_empty (exclusions prod))) eqn:Hex.
  - apply existsb_exists in Hex. destruct Hex as [t [Hin Ht]].
    apply tags_include_In in Ht.
    assert (Hsome : exists x, In x (or_empty (exclusions prod)) /\ In x (tags profile))
      by now exists t.
    destruct (first_match_split _ _ Hsome) as [pre [t' [post [He [Ht' Hpre]]]]].
    rewrite (recommendation_of_excluded profile prod pre post t' He Ht' Hpre). simpl.
    split; [discriminate|]. intros [Hno _]. exfalso. now apply (Hno t).
  - assert (Hno : forall t, In t (or_empty (exclusions prod)) -> ~ In t (tags profile)).
    { intros t Hin Ht. apply tags_include_In in Ht.
      assert (He : existsb (fun x => tags_include (tags profile) x)
                     (or_empty (exclusions prod)) = true)
        by (apply existsb_exists; now exists t).
      congruence. }
    rewrite (recommendation_of_not_excluded profile prod Hno). simpl.
    rewrite requiredScores_loop_met. simpl.
    destruct (forallb (threshold_met profile) (or_empty (required_scores prod)))
      eqn:Hall; simpl.
    + split; [intros _|reflexivity]. split; [exact Hno|].
      intros n th Hin. rewrite forallb_forall in Hall.
      now apply threshold_met_true, Hall.
    + split; [discriminate|]. intros [_ Hth]. exfalso.
      apply forallb_false_exists in Hall. destruct Hall as [[n th] [Hin Hf]].
      apply Hth, threshold_met_true in Hin. congruence.
Qed.

Lemma requiredScores_loop_why (profile : Profile) (entries : record Q)
    (st : list string * record Q * bool) :
  List.length (fst (fst (requiredScores_loop profile entries st))) =
    (List.length (fst (fst st)) + List.length entries)%nat.
Proof.
  revert st. induction entries as [|[n t] rest IH]; intro st; simpl; [lia|].
  destruct st as [[w b] a].
  destruct (Qle_bool t (or_zero (obj_get (scores profile) n)));
    rewrite IH; simpl; unfold push; rewrite length_app; simpl; lia.
Qed.


(** X18: raising scores never hides a product: if the tags are the same and
    no score is lower, a product SHOWN for the first profile is SHOWN for the
    second. *)
Theorem recommend_monotone (products : list Product) (profile profile' : Profile)
    (r r' : ProductRecommendation) :
  tags profile' = tags profile ->
  (forall n, score_default profile n <= score_default profile' n) ->
  In r (recommend products profile) -> decision r = SHOWN ->
  In r' (recommend products profile') -> product r' = product r ->
  decision r' = SHOWN.
Proof.
  intros Ht Hs Hr Hd Hr' Hp.
  apply recommend_In in Hr, Hr'.
  destruct Hr as [k [_ [_ Heq]]], Hr' as [k' [_ [_ Heq']]].
  assert (H : decision (recommendation_of profile (product r)) = SHOWN)
    by (rewrite Heq in Hd; exact Hd).
  apply recommendation_of_shown in H. destruct H as [Hno Hth].
  rewrite Heq'. simpl. rewrite Hp. apply recommendation_of_shown. split.
  - rewrite Ht. exact Hno.
  - intros n th Hin. apply Qle_trans with (score_default profile n); auto.
Qed.

(** X19: an entry carries one explanation when its product is excluded, and
    otherwise one explanation per required score; and its score breakdown
    has no entry under a name that is not a required score. *)
Theorem recommend_explanations (products : list Product) (profile : Profile)
    (r : ProductRecommendation) :
  In r (recommend products profile) ->
  List.length (why r) =
    (if existsb (fun t => tags_include (tags profile) t)
          (or_empty (exclusions (product r)))
     then 1%nat
     else List.length (or_empty (required_scores (product r)))) /\
  (forall n, ~ In n (map fst (or_empty (required_scores (product r)))) ->
             obj_get (scoreBreakdown r) n = None).
Proof.
  intro Hr. apply recommend_In in Hr. destruct Hr as [k [_ [_ Heq]]].
  set (prod := product r) in *.
  destruct (existsb (fun t => tags_include (tags profile) t)
              (or_empty (exclusions prod))) eqn:Hex.
  - apply existsb_exists in Hex. destruct Hex as [t [Hin Ht]].
    apply tags_include_In in Ht.
    assert (Hsome : exists x, In x (or_empty (exclusions prod)) /\ In x (tags profile))
      by now exists t.
    destruct (first_match_split _ _ Hsome) as [pre [t' [post [He [Ht' Hpre]]]]].
    rewrite (recommendation_of_excluded profile prod pre post t' He Ht' Hpre) in Heq.
    rewrite Heq. simpl. split; reflexivity.
  - assert (Hno : forall t, In t (or_empty (exclusions prod)) -> ~ In t (tags profile)).
    { intros t Hin Ht. apply tags_include_In in Ht.
      assert (He : existsb (fun x => tags_include (tags profile) x)
                     (or_empty (exclusions prod)) = true)
        by (apply existsb_exists; now exists t).
      congruence. }
    rewrite (recommendation_of_not_excluded profile prod Hno) in Heq.
    rewrite Heq. simpl. split.
    + now rewrite requiredScores_loop_why.
    + intros n Hn. rewrite requiredScores_loop_breakdown. simpl.
      destruct (existsb (fun e => String.eqb (fst e) n)
                  (or_empty (required_scores prod))) eqn:Hk; [|reflexivity].
      exfalso. apply Hn. apply existsb_exists in Hk. destruct Hk as [[n' t] [Hin Hk]].
      apply String.eqb_eq in Hk. simpl in Hk. subst n'.
      apply in_map_iff. now exists (n, t).
Qed.

(** X20: inactive products have no influence: the result on the active
    products alone is the result on the whole catalog. *)
Theorem recommend_active_only (products : list Product) (profile : Profile) :
  recommend (filter active products) profile = recommend products profile.
Proof.
  unfold recommend. rewrite !products_loop_spec. simpl.
  rewrite filter_filter_andb.
  rewrite (filter_ext_in_bool (fun x => active x && active x) active); [reflexivity|].
  intros x _. now destruct (active x).
Qed.

End DecisionFacts.


Lemma recommend_monotone_witness :
  decision (set_rank (recommendation_of (host := plain_host)
                        (set_scores sample_profile
                           [("financialStability", 80); ("homeOwnershipIntent", 35)])
                        savings) 1) = SHOWN.
Proof.
  apply (recommend_monotone (host := plain_host) [savings] sample_profile
           (set_scores sample_profile
                           [("financialStability", 80); ("homeOwnershipIntent", 35)])
           (set_rank (recommendation_of (host := plain_host) sample_profile savings) 1)).
  - reflexivity.
  - intro n. unfold score_default. cbn -[String.eqb Qle].
    destruct (String.eqb "financialStability" n).
    + unfold Qle. simpl. lia.
    + destruct (String.eqb "homeOwnershipIntent" n); unfold Qle; simpl; lia.
  - vm_compute. left. reflexivity.
  - reflexivity.
  - vm_compute. left. reflexivity.
  - reflexivity.
Defined.

Lemma recommend_explanations_witness :
  exists r,
    In r (recommend (host := plain_host) sample_catalog sample_profile) /\
    product r = home_loan /\ List.length (why r) = 1%nat.
Proof.
  exists (set_rank (recommendation_of (host := plain_host) sample_profile home_loan) 2).
  assert (Hin : In (set_rank (recommendation_of (host := plain_host)
                                sample_profile home_loan) 2)
                  (recommend (host := plain_host) sample_catalog sample_profile)).
  { vm_compute. right. left. reflexivity. }
  split; [exact Hin|]. split; [reflexivity|].
  destruct (recommend_explanations (host := plain_host) sample_catalog sample_profile
              _ Hin) as [Hlen _].
  exact Hlen.
Defined.

(** ** The narrative *)

Lemma prefix_app (sub s q : string) :
  String.prefix sub s = true -> String.prefix sub (s ++ q) = true.
Proof.
  revert s. induction sub as [|c sub IH]; intros s H;
    [destruct (s ++ q); reflexivity|].
  destruct s as [|c' s]; simpl in *; [discriminate|].
  destruct (ascii_dec c c'); [now apply IH|discriminate].
Qed.

Lemma includes_unfold (s sub : string) :
  includes s sub =
    String.prefix sub s ||
    match s with
    | EmptyString => false
    | String _ rest => includes rest sub
    end.
Proof. destruct s; reflexivity. Qed.

Lemma includes_app_l (s q sub : string) :
  includes s sub = true -> includes (s ++ q) sub = true.
Proof.
  induction s as [|c s IH]; intro H.
  - rewrite includes_unfold in H. rewrite orb_false_r in H.
    destruct sub; [|discriminate]. simpl. rewrite includes_unfold.
    now destruct q.
  - rewrite includes_unfold in H. apply orb_true_iff in H.
    change (String c s ++ q) with (String c (s ++ q)).
    rewrite includes_unfold. apply orb_true_iff. destruct H as [H|H].
    + left. now apply (prefix_app sub (String c s) q).
    + right. now apply IH.
Qed.

Lemma includes_app_r (p s sub : string) :
  includes s sub = true -> includes (p ++ s) sub = true.
Proof.
  intro H. induction p as [|c p IH]; [exact H|].
  change (String c p ++ s) with (String c (p ++ s)).
  rewrite includes_unfold. apply orb_true_iff. now right.
Qed.

Lemma includes_self (s : string) : includes s s = true.
Proof. rewrite includes_unfold. now rewrite prefix_refl. Qed.

(** A text that occurs in one of the joined texts occurs in the join. *)
Lemma includes_concat (sep : string) (l : list string) (line sub : string) :
  In line l -> includes line sub = true ->
  includes (String.concat sep l) sub = true.
Proof.
  intros Hin Hsub. induction l as [|x l IH]; [destruct Hin|].
  destruct l as [|y l].
  - destruct Hin as [Heq|[]]. subst x. exact Hsub.
  - change (String.concat sep (x :: y :: l))
      with (x ++ sep ++ String.concat sep (y :: l)).
    destruct Hin as [Heq|Hin].
    + subst x. now apply includes_app_l.
    + apply includes_app_r, includes_app_r. now apply IH.
Qed.

Section NarrativeFacts.
Context {host : Host}.

Lemma generateNarrative_parts_trace (trace : list TraceEntry)
    (recs : list ProductRecommendation) (t : TraceEntry) :
  In t trace ->
  In ("• " ++ dquote ++ ruleName t ++ dquote ++ ": " ++ effectDescription t)
     (generateNarrative_parts trace recs).
Proof.
  intro Hin. unfold generateNarrative_parts.
  assert (H0 : In ("• " ++ dquote ++ ruleName t ++ dquote ++ ": " ++ effectDescription t)
                 (if Nat.eqb (List.length trace) 0
                  then [ "No rules were triggered by the provided events." ]
                  else (num_to_string (inject_Z (Z.of_nat (List.length trace)))
                          ++ " rule"
                          ++ (if Nat.ltb 1 (List.length trace) then "s" else "")
                          ++ " matched:")
                       :: map (fun t => "• " ++ dquote ++ ruleName t ++ dquote ++ ": "
                                          ++ effectDescription t) trace)).
  { destruct trace as [|t0 trace]; [destruct Hin|].
    simpl Nat.eqb. cbv iota. right.
    apply (in_map (fun t => "• " ++ dquote ++ ruleName t ++ dquote ++ ": "
                              ++ effectDescription t)). exact Hin. }
  repeat match goal with
         | |- context [if Nat.ltb 0 ?n then _ else _] => destruct (Nat.ltb 0 n)
         end; unfold push; repeat (apply in_or_app; left); exact H0.
Qed.

Lemma generateNarrative_parts_product (trace : list TraceEntry)
    (recs : list ProductRecommendation) (r : ProductRecommendation) :
  In r recs ->
  exists line, In line (generateNarrative_parts trace recs) /\
               includes line (rec_name r) = true.
Proof.
  intro Hin. unfold generateNarrative_parts.
  set (shown := filter (fun r => Decision_eqb (decision r) SHOWN) recs).
  set (hidden := filter (fun r => Decision_eqb (decision r) HIDDEN) recs).
  set (parts1 := push (push _ "") "Recommendation Summary:").
  assert (Hline : forall (l : list ProductRecommendation) (label : string),
            In r l ->
            includes (label ++ String.concat ", " (map rec_name l)) (rec_name r) = true).
  { intros l label Hl. apply includes_app_r.
    apply includes_concat with (rec_name r); [now apply in_map|apply includes_self]. }
  destruct (decision r) eqn:Hd.
  - assert (Hs : In r shown) by (apply filter_In; split; [exact Hin|now rewrite Hd]).
    exists ("Showing: " ++ String.concat ", " (map rec_name shown)).
    split; [|now apply Hline].
    destruct shown as [|s0 shown']; [destruct Hs|]. simpl Nat.ltb. cbv iota.
    destruct (Nat.ltb 0 (List.length hidden)); unfold push;
      [apply in_or_app; left|]; apply in_or_app; right; now left.
  - assert (Hh : In r hidden) by (apply filter_In; split; [exact Hin|now rewrite Hd]).
    exists ("Hidden: " ++ String.concat ", " (map rec_name hidden)).
    split; [|now apply Hline].
    destruct hidden as [|h0 hidden']; [destruct Hh|]. simpl Nat.ltb. cbv iota.
    unfold push. apply in_or_app. right. now left.
Qed.

(** X21: the narrative names every rule of the trace and every product of
    the recommendations: the name occurs in the text. *)
Theorem generateNarrative_mentions (trace : list TraceEntry)
    (recs : list ProductRecommendation) :
  (forall t, In t trace ->
     includes (generateNarrative trace recs) (ruleName t) = true) /\
  (forall r, In r recs ->
     includes (generateNarrative trace recs) (rec_name r) = true).
Proof.
  unfold generateNarrative. split.
  - intros t Ht.
    apply includes_concat
      with ("• " ++ dquote ++ ruleName t ++ dquote ++ ": " ++ effectDescription t).
    + now apply generateNarrative_parts_trace.
    + apply includes_app_r, includes_app_r, includes_app_l, includes_self.
  - intros r Hr.
    destruct (generateNarrative_parts_product trace recs r Hr) as [line [Hin Hinc]].
    now apply includes_concat with line.
Qed.

End NarrativeFacts.

Lemma generateNarrative_mentions_witness :
  includes
    (generateNarrative (host := plain_host)
       (snd (evaluateRules (host := plain_host) [salary_rule] sample_profile
               [salary_event] "t1"))
       (recommend (host := plain_host) sample_catalog sample_profile))
    "Stable salary" = true.
Proof.
  destruct (generateNarrative_mentions (host := plain_host)
              (snd (evaluateRules (host := plain_host) [salary_rule] sample_profile
                      [salary_event] "t1"))
              (recommend (host := plain_host) sample_catalog sample_profile))
    as [Hrules _].
  apply (Hrules {| ruleId := "rule-salary"; ruleName := "Stable salary";
                   effectDescription :=
                     "financialStability +10 (52 → 62); Added tag " ++ dquote
                       ++ "stable-income" ++ dquote |}).
  vm_compute. left. reflexivity.
Defined.

(** ** The preview of a rule *)

Lemma no_length_false {T : Type} (l : option (list T)) :
  no_length l = false <-> exists x xs, l = Some (x :: xs).
Proof.
  destruct l as [[|x xs]|]; simpl; split; try discriminate.
  - intros [x [xs H]]. discriminate.
  - intros _. now exists x, xs.
  - reflexivity.
  - intros [x [xs H]]. discriminate.
Qed.

Section PreviewFacts.
Context {host : Host}.
Variable JSON_stringify : value -> string.

(** X22: the preview is the placeholder text exactly when the draft has no
    event, no condition or no effect. *)
Theorem generateRulePreview_placeholder (rule : PartialRule) :
  generateRulePreview JSON_stringify rule = preview_placeholder <->
  draft_event rule = None \/
  no_length (draft_conditions rule) = true \/
  no_length (draft_effects rule) = true.
Proof.
  unfold generateRulePreview.
  destruct (draft_event rule) as [ev|]; [|split; auto].
  destruct (no_length (draft_conditions rule)); simpl; [split; auto|].
  destruct (no_length (draft_effects rule)); simpl; [split; auto|].
  split.
  - intro H. discriminate H.
  - intros [H|[H|H]]; discriminate H.
Qed.

(** X23: the label of a condition is the last segment of its path: a path
    that ends in a dot and a non-empty segment is labelled with that
    segment, and a path of one segment with itself. *)
Theorem fieldLabel_last_segment (path k : string) :
  no_dot k = true -> k <> "" ->
  fieldLabel (path ++ "." ++ k) = k /\ fieldLabel k = k.
Proof.
  intros Hk Hne. unfold fieldLabel.
  rewrite split_dot_app, (split_dot_no_dot k Hk), last_last. simpl.
  destruct k as [|c k]; [contradiction|]. simpl. split; reflexivity.
Qed.

End PreviewFacts.

Lemma fieldLabel_last_segment_witness :
  fieldLabel "profile.scores.financialStability" = "financialStability".
Proof.
  assert (Hne : "financialStability" <> "") by discriminate.
  destruct (fieldLabel_last_segment "profile.scores" "financialStability" eq_refl Hne)
    as [H _].
  exact H.
Defined.

(** ** The validation of a draft *)

Lemma splice1_indexOf_NoDup (ts : list string) (t : string) (idx : nat) :
  NoDup ts -> indexOf ts t = Some idx -> ~ In t (splice1 ts idx).
Proof.
  revert idx. induction ts as [|x ts IH]; intros idx Hnd Hi; simpl in *.
  - discriminate.
  - inversion Hnd as [|? ? Hnin Hnd']; subst.
    destruct (String.eqb_spec x t) as [Heq|Hne].
    + inversion Hi; subst. exact Hnin.
    + destruct (indexOf ts t) as [i|] eqn:Hit; [|discriminate].
      inversion Hi; subst. simpl. intros [H|H]; [contradiction|].
      now apply (IH i Hnd' eq_refl).
Qed.

Lemma app_nil_both {T : Type} (a b : list T) : (a ++ b)%list = [] <-> a = [] /\ b = [].
Proof.
  split.
  - intro H. apply app_eq_nil in H. exact H.
  - intros [Ha Hb]. now subst.
Qed.

Section ValidationFacts.
Context {host : Host}.
Variable trim : string -> string.

Lemma condition_errors_nil (i : nat) (c : Condition) :
  condition_errors i c = [] <-> condition_complete c.
Proof.
  unfold condition_errors, condition_complete. rewrite app_nil_both.
  destruct (source c) as [|a s]; simpl.
  - split; [intros [H _]; discriminate|intros [H _]; contradiction].
  - destruct (cond_value c) as [| | |v| |]; simpl;
      try (split; [intros _; repeat split; discriminate|auto]).
    + split; [intros [_ H]; discriminate|intros [_ [_ H]]; contradiction].
    + destruct v; simpl.
      * split; [intros [_ H]; discriminate|intros [_ [H _]]; contradiction].
      * split; [intros _; repeat split; discriminate|auto].
Qed.

Lemma truthy_Some (o : option string) :
  is_none (truthy o) = false <-> exists s, o = Some s /\ s <> "".
Proof.
  destruct o as [[|c s]|]; simpl; split; try discriminate.
  - intros [s [H Hne]]. inversion H; subst. contradiction.
  - intros _. exists (String c s). split; [reflexivity|discriminate].
  - reflexivity.
  - intros [s [H _]]. discriminate.
Qed.

Lemma effect_errors_nil (i : nat) (e : Effect) :
  effect_errors i e = [] <-> effect_complete e.
Proof.
  unfold effect_errors, effect_complete. rewrite app_nil_both.
  destruct (String.eqb_spec (effect_type e) "scoreDelta") as [Hsd|Hsd].
  - rewrite Hsd. simpl. rewrite app_nil_both.
    pose proof (truthy_Some (score e)) as Hs.
    destruct (is_none (truthy (score e))).
    + split; [intros [[H _] _]; discriminate|].
      intros [H _]. destruct (H eq_refl) as [Hx _].
      apply Hs in Hx. discriminate.
    + destruct (delta e) as [d|]; simpl.
      * split; [|auto]. intros _. split.
        -- intros _. split; [now apply Hs|now exists d].
        -- intros [H|H]; discriminate.
      * split; [intros [[_ H] _]; discriminate|].
        intros [H _]. destruct (H eq_refl) as [_ [d Hd]]. discriminate.
  - assert (Hl : forall P : Prop, ([] : list string) = [] /\ P <-> P) by tauto.
    rewrite Hl.
    pose proof (truthy_Some (tag e)) as Ht.
    destruct (String.eqb_spec (effect_type e) "addTag") as [Ha|Ha]; simpl.
    + destruct (is_none (truthy (tag e))).
      * split; [discriminate|]. intros [_ H].
        pose proof (proj2 Ht (H (or_introl Ha))) as Hx. discriminate Hx.
      * split; [|auto]. intros _. split; [intro; contradiction|].
        intros _. now apply Ht.
    + destruct (String.eqb_spec (effect_type e) "removeTag") as [Hr|Hr]; simpl.
      * destruct (is_none (truthy (tag e))).
        -- split; [discriminate|]. intros [_ H].
           pose proof (proj2 Ht (H (or_intror Hr))) as Hx. discriminate Hx.
        -- split; [|auto]. intros _. split; [intro; contradiction|].
           intros _. now apply Ht.
      * split; [|auto]. intros _. split; [intro; contradiction|].
        intros [H|H]; contradiction.
Qed.

Lemma forEach_errors_nil {T : Type} (f : nat -> T -> list string) (P : T -> Prop)
    (i : nat) (l : list T) :
  (forall j x, f j x = [] <-> P x) ->
  forEach_errors f i l = [] <-> Forall P l.
Proof.
  intro Hf. revert i. induction l as [|x l IH]; intro i; simpl.
  - split; [constructor|reflexivity].
  - rewrite app_nil_both, Hf, IH. split.
    + intros [Hx Hl]. now constructor.
    + intro H. inversion H; subst. now split.
Qed.

(** The validation returns no message exactly for the valid drafts. *)
Lemma validateRule_nil (rule : PartialRule) :
  validateRule trim rule = [] <-> draft_valid trim rule.
Proof.
  unfold validateRule, draft_valid. simpl. rewrite app_nil_r.
  rewrite !app_nil_both.
  rewrite (forEach_errors_nil condition_errors condition_complete)
    by apply condition_errors_nil.
  rewrite (forEach_errors_nil effect_errors effect_complete)
    by apply effect_errors_nil.
  assert (Hname : (if is_none (truthy (option_map trim (draft_name rule)))
                   then [ "Rule name is required" ] else []) = [] <->
                  exists n, draft_name rule = Some n /\ trim n <> "").
  { pose proof (truthy_Some (option_map trim (draft_name rule))) as H.
    destruct (is_none (truthy (option_map trim (draft_name rule)))).
    - split; [discriminate|]. intros [n [Hn Hne]]. exfalso.
      assert (Hx : false = true -> False) by discriminate. apply Hx. symmetry.
      apply H. exists (trim n). rewrite Hn. now split.
    - split; [|reflexivity]. intros _. destruct (proj1 H eq_refl) as [s [Hs Hne]].
      destruct (draft_name rule) as [n|]; [|discriminate].
      exists n. simpl in Hs. inversion Hs; subst. now split. }
  assert (Hevent : (if is_none (draft_event rule)
                    then [ "Event type is required" ] else []) = [] <->
                   exists ev, draft_event rule = Some ev).
  { destruct (draft_event rule) as [ev|]; simpl.
    - split; [intros _; now exists ev|reflexivity].
    - split; [discriminate|intros [ev H]; discriminate]. }
  assert (Hlen : forall (T : Type) (l : option (list T)) (msg : string),
            (if no_length l then [msg] else []) = [] <->
            exists x xs, l = Some (x :: xs)).
  { intros T l msg. rewrite <- no_length_false.
    destruct (no_length l); split; try discriminate; reflexivity. }
  rewrite Hname, Hevent, !Hlen. split.
  - intros [Hn [He [[c [cs Hc]] [[e [es Hes]] [HFc HFe]]]]].
    rewrite Hc in HFc. rewrite Hes in HFe. simpl in HFc, HFe.
    repeat split; try assumption.
    + exists c, cs. now split.
    + exists e, es. now split.
  - intros [Hn [He [[c [cs [Hc HFc]]] [e [es [Hes HFe]]]]]].
    rewrite Hc, Hes. simpl. repeat split; try assumption.
    + now exists c, cs.
    + now exists e, es.
Qed.

(** X24: the validation returns no message exactly when the draft has a name
    that is not blank, an event, at least one condition, each with a field
    and a value, and at least one effect, each score delta with a score name
    and a delta and each tag effect with a tag; an effect of any other type
    passes unchecked. *)
Theorem validateRule_accepts (rule : PartialRule) :
  validateRule trim rule = [] <-> draft_valid trim rule.
Proof. apply validateRule_nil. Qed.

(** X25: a draft that passes the validation has a preview that is not the
    placeholder. *)
Theorem validateRule_preview (JSON_stringify : value -> string) (rule : PartialRule) :
  validateRule trim rule = [] ->
  generateRulePreview JSON_stringify rule <> preview_placeholder.
Proof.
  intro H. apply validateRule_nil in H.
  destruct H as [_ [[ev Hev] [[c [cs [Hc _]]] [e [es [He _]]]]]].
  unfold generateRulePreview. rewrite Hev, Hc, He. simpl. discriminate.
Qed.

(** X26: the effects of a draft that passes the validation are not skipped
    by the guards of the effect applicator: on every profile a score delta
    gives a description, after an addTag the profile carries the tag, and
    after a removeTag a profile whose tags had no duplicate does not carry
    it. *)
Theorem validateRule_effects_apply (rule : PartialRule) (e : Effect) (p : Profile) :
  validateRule trim rule = [] ->
  In e (or_empty (draft_effects rule)) ->
  (effect_type e = "scoreDelta" -> fst (applyEffect p e) <> "") /\
  (effect_type e = "addTag" ->
     exists t, tag e = Some t /\ In t (tags (snd (applyEffect p e)))) /\
  (effect_type e = "removeTag" ->
     exists t, tag e = Some t /\
               (NoDup (tags p) -> ~ In t (tags (snd (applyEffect p e))))).
Proof.
  intros H Hin. apply validateRule_nil in H.
  destruct H as [_ [_ [_ [e0 [es [He HF]]]]]].
  rewrite He in Hin. simpl in Hin. rewrite Forall_forall in HF.
  destruct (HF e Hin) as [Hsd Htag].
  split; [|split].
  - intro Hty. destruct (Hsd Hty) as [[s [Hs Hne]] [d Hd]].
    now destruct (applyEffect_scoreDelta p e s d Hty Hs Hd Hne).
  - intro Hty. destruct (Htag (or_introl Hty)) as [t [Ht Hne]].
    exists t. split; [exact Ht|].
    rewrite (applyEffect_addTag p e t Hty Ht Hne).
    destruct (tags_include (tags p) t) eqn:Hi; simpl.
    + now apply tags_include_In.
    + unfold push. apply in_or_app. right. now left.
  - intro Hty. destruct (Htag (or_intror Hty)) as [t [Ht Hne]].
    exists t. split; [exact Ht|]. intro Hnd.
    rewrite (applyEffect_removeTag p e t Hty Ht Hne).
    destruct (indexOf (tags p) t) as [idx|] eqn:Hi; simpl.
    + now apply splice1_indexOf_NoDup.
    + now apply indexOf_None.
Qed.

End ValidationFacts.

Lemma validateRule_preview_witness :
  validateRule (host := plain_host) trim_blanks sample_draft = [] /\
  generateRulePreview (host := plain_host) (ToString (host := plain_host)) sample_draft
    <> preview_placeholder.
Proof.
  assert (H : validateRule (host := plain_host) trim_blanks sample_draft = [])
    by reflexivity.
  split; [exact H|].
  exact (validateRule_preview (host := plain_host) trim_blanks _ sample_draft H).
Defined.

Lemma validateRule_effects_apply_witness :
  exists t,
    tag (addTag_effect "stable-income") = Some t /\
    In t (tags (snd (applyEffect (host := plain_host) sample_profile
                       (addTag_effect "stable-income")))).
Proof.
  assert (H : validateRule (host := plain_host) trim_blanks sample_draft = [])
    by reflexivity.
  assert (Hin : In (addTag_effect "stable-income") (or_empty (draft_effects sample_draft)))
    by (simpl; auto).
  destruct (validateRule_effects_apply (host := plain_host) trim_blanks sample_draft
              (addTag_effect "stable-income") sample_profile H Hin) as [_ [Hadd _]].
  exact (Hadd eq_refl).
Defined.

(** ** The tables of the editor and the engine *)

(** X27: an operator can hold for some source and target exactly when it is
    one of the operators that the editor offers; every other operator is
    false on all inputs. *)
Theorem OPERATORS_exact {host : Host} (operator : string) :
  (exists sourceValue targetValue,
     checkCondition sourceValue operator targetValue = true) <->
  In operator (map fst OPERATORS).
Proof.
  split.
  - intros [sv [tv H]]. unfold checkCondition in H.
    destruct sv as [v|]; [|discriminate].
    simpl.
    destruct (String.eqb_spec operator ">"); [auto|].
    destruct (String.eqb_spec operator "<"); [auto|].
    destruct (String.eqb_spec operator ">="); [auto 6|].
    destruct (String.eqb_spec operator "<="); [auto 6|].
    destruct (String.eqb_spec operator "="); [auto|].
    destruct (String.eqb_spec operator "contains"); [auto 7|].
    destruct (String.eqb_spec operator "in"); [auto 8|].
    destruct v; discriminate.
  - simpl. intros [H|[H|[H|[H|[H|[H|[H|[]]]]]]]]; subst operator.
    + exists (Some (VNum 1)), (Some (VNum 0)). reflexivity.
    + exists (Some (VNum 0)), (Some (VNum 1)). reflexivity.
    + exists (Some (VStr "a")), (Some (VStr "a")). simpl. apply String.eqb_refl.
    + exists (Some (VNum 1)), (Some (VNum 1)). reflexivity.
    + exists (Some (VNum 1)), (Some (VNum 1)). reflexivity.
    + exists (Some (VStr "a")), (Some (VStr "a")). simpl. apply includes_self.
    + exists (Some (VStr "a")), (Some (VArr [VStr "a"])). simpl.
      now rewrite String.eqb_refl.
Qed.

(** X28: every field that the editor offers resolves, in the context that the
    engine builds, to the entry of that name in the payload of the event, in
    the static data, in the behavioural data or in the scores of the
    profile. *)
Theorem FIELD_SUGGESTIONS_resolve (path : string) (profile : Profile)
    (ev : SimulationEvent) :
  In path (map (fun f => fst (fst f)) FIELD_SUGGESTIONS) ->
  exists k,
    (path = "event." ++ k /\
     getByPath (buildContext profile ev) path = obj_get (payload ev) k) \/
    (path = "profile.static." ++ k /\
     getByPath (buildContext profile ev) path = obj_get (static_data profile) k) \/
    (path = "profile.behavioral." ++ k /\
     getByPath (buildContext profile ev) path = obj_get (behavioral profile) k) \/
    (path = "profile.scores." ++ k /\
     getByPath (buildContext profile ev) path
       = option_map VNum (obj_get (scores profile) k)).
Proof.
  simpl.
  intros [H|[H|[H|[H|[H|[H|[H|[H|[H|[H|[H|[H|[H|[H|[]]]]]]]]]]]]]]]; subst path.
  - exists "amount". left. split; reflexivity.
  - exists "counterpartyLabel". left. split; reflexivity.
  - exists "frequency". left. split; reflexivity.
  - exists "category". left. split; reflexivity.
  - exists "age". right. left. split; reflexivity.
  - exists "employment". right. left. split; reflexivity.
  - exists "hasHomeLoan". right. left. split; reflexivity.
  - exists "salaryCreditsPerMonth". right. right. left. split; reflexivity.
  - exists "rentPaymentsPerMonth". right. right. left. split; reflexivity.
  - exists "marketplaceVisits". right. right. left. split; reflexivity.
  - exists "financialStability". right. right. right.
    split; [reflexivity|apply obj_get_map_VNum].
  - exists "homeOwnershipIntent". right. right. right.
    split; [reflexivity|apply obj_get_map_VNum].
  - exists "creditReadiness". right. right. right.
    split; [reflexivity|apply obj_get_map_VNum].
  - exists "digitalEngagement". right. right. right.
    split; [reflexivity|apply obj_get_map_VNum].
Qed.

Lemma FIELD_SUGGESTIONS_resolve_witness :
  exists k,
    ("event.amount" = "event." ++ k /\
     getByPath (buildContext sample_profile salary_event) "event.amount"
       = obj_get (payload salary_event) k) \/
    ("event.amount" = "profile.static." ++ k /\
     getByPath (buildContext sample_profile salary_event) "event.amount"
       = obj_get (static_data sample_profile) k) \/
    ("event.amount" = "profile.behavioral." ++ k /\
     getByPath (buildContext sample_profile salary_event) "event.amount"
       = obj_get (behavioral sample_profile) k) \/
    ("event.amount" = "profile.scores." ++ k /\
     getByPath (buildContext sample_profile salary_event) "event.amount"
       = option_map VNum (obj_get (scores sample_profile) k)).
Proof.
  apply (FIELD_SUGGESTIONS_resolve "event.amount" sample_profile salary_event).
  simpl. auto.
Defined.
